(** * Verification of the papyrix-flasher framing codec, protocol packets
    and compressed flashing driver.

    Bytes are modelled as [Z]; a Go [byte] is a [Z] in [0, 256).  Go slices
    are [list Z]; a slice [s[a:b]] is [slice s a b]. *)

From Stdlib Require Import ZArith List Lia Bool.
From Stdlib Require String Ascii.
Import ListNotations.
Open Scope Z_scope.

(** Go slice expression [s[a:b]]. *)
Definition slice {A} (s : list A) (a b : nat) : list A :=
  firstn (b - a) (skipn a s).

Definition is_byte (b : Z) : Prop := 0 <= b < 256.

(** ** internal/slip/slip.go *)
Module Slip.

Definition End_ : Z := 192.     (* 0xC0 *)
Definition Esc : Z := 219.      (* 0xDB *)
Definition EscEnd : Z := 220.   (* 0xDC *)
Definition EscEsc : Z := 221.   (* 0xDD *)

(** [Encode]: the [for _, b := range data] loop with its [switch]. *)
Definition encode_byte (b : Z) : list Z :=
  if b =? End_ then [Esc; EscEnd]
  else if b =? Esc then [Esc; EscEsc]
  else [b].

Definition Encode (data : list Z) : list Z :=
  [End_] ++ flat_map encode_byte data ++ [End_].

(** [for start < end && frame[start] == End { start++ }] *)
Fixpoint strip_start (fuel : nat) (frame : list Z) (start end_ : nat) : nat :=
  match fuel with
  | O => start
  | S f =>
      if Nat.ltb start end_ && (nth start frame 0 =? End_)
      then strip_start f frame (S start) end_
      else start
  end.

(** [for end > start && frame[end-1] == End { end-- }] *)
Fixpoint strip_end (fuel : nat) (frame : list Z) (start end_ : nat) : nat :=
  match fuel with
  | O => end_
  | S f =>
      if Nat.ltb start end_ && (nth (end_ - 1) frame 0 =? End_)
      then strip_end f frame start (end_ - 1)
      else end_
  end.

(** The unescaping loop [for i < len(data) { ... }]; [result] is the
    accumulated output, [fuel] bounds the iterations ([len(data)]
    suffices since [i] grows at every step). *)
Fixpoint decode_loop (fuel : nat) (data : list Z) (i : nat) (result : list Z)
  : list Z :=
  match fuel with
  | O => result
  | S f =>
      if Nat.ltb i (length data) then
        if (nth i data 0 =? Esc) && Nat.ltb (i + 1) (length data) then
          let c := nth (i + 1) data 0 in
          let out := if c =? EscEnd then End_
                     else if c =? EscEsc then Esc
                     else c in
          decode_loop f data (i + 2) (result ++ [out])
        else decode_loop f data (i + 1) (result ++ [nth i data 0])
      else result
  end.

Definition Decode (frame : list Z) : list Z :=
  if Nat.ltb (length frame) 2 then []
  else
    let start := strip_start (length frame) frame 0 (length frame) in
    let end_ := strip_end (length frame) frame start (length frame) in
    if Nat.leb end_ start then []
    else
      let data := slice frame start end_ in
      decode_loop (length data) data 0 [].

(** First loop of [ReadFrame]: index of the first [End]. *)
Fixpoint find_start (i : nat) (data : list Z) : option nat :=
  match data with
  | [] => None
  | b :: rest => if b =? End_ then Some i else find_start (S i) rest
  end.

(** Second loop of [ReadFrame], walking [data[i:]] with the [inFrame]
    flag; returns the index of the closing [End]. *)
Fixpoint find_close (inFrame : bool) (i : nat) (rest : list Z) : option nat :=
  match rest with
  | [] => None
  | b :: rest' =>
      if b =? End_ then
        if inFrame then Some i else find_close inFrame (S i) rest'
      else find_close true (S i) rest'
  end.

(** [ReadFrame]: [None] stands for the Go [nil] frame. *)
Definition ReadFrame (data : list Z) : option (list Z) * list Z :=
  match find_start 0 data with
  | None => (None, data)
  | Some start =>
      match find_close false start (skipn start data) with
      | Some i => (Some (slice data start (i + 1)), skipn (i + 1) data)
      | None => (None, data)
      end
  end.

End Slip.

(** ** Go integer conversions *)
Module GoInt.

(** [int] on a 64-bit target: two's complement wrap-around. *)
Definition wrap64 (z : Z) : Z := (z + 2 ^ 63) mod 2 ^ 64 - 2 ^ 63.

(** [uint32(x)] and [uint16(x)] conversions. *)
Definition to_uint32 (z : Z) : Z := z mod 2 ^ 32.
Definition to_uint16 (z : Z) : Z := z mod 2 ^ 16.

(** [binary.LittleEndian.PutUint16] / [PutUint32]. *)
Definition put_uint16 (v : Z) : list Z :=
  [Z.land v 255; Z.land (Z.shiftr v 8) 255].
Definition put_uint32 (v : Z) : list Z :=
  [Z.land v 255; Z.land (Z.shiftr v 8) 255;
   Z.land (Z.shiftr v 16) 255; Z.land (Z.shiftr v 24) 255].

(** [binary.LittleEndian.Uint16(b[0:2])] / [Uint32(b[0:4])]. *)
Definition uint16_le (b : list Z) : Z :=
  nth 0 b 0 + Z.shiftl (nth 1 b 0) 8.
Definition uint32_le (b : list Z) : Z :=
  nth 0 b 0 + Z.shiftl (nth 1 b 0) 8 + Z.shiftl (nth 2 b 0) 16
  + Z.shiftl (nth 3 b 0) 24.

End GoInt.

(** ** internal/protocol *)
Module Protocol.
Import GoInt.

(** commands.go *)
Definition CmdFlashDeflData : Z := 17.  (* 0x11 *)
Definition DirRequest : Z := 0.
Definition DirResponse : Z := 1.
Definition FlashBlockSize : Z := 1024.  (* 0x400 *)
Definition FlashSectorSize : Z := 4096. (* 0x1000 *)

Record Request := {
  Command : Z;
  Data : list Z;
  Checksum : Z
}.

Record Response := {
  RCommand : Z;
  RData : list Z;
  Value : Z;
  Status : Z;
  Error : Z
}.

(** [calculateChecksum]: [var checksum byte = 0xEF; checksum ^= b]. *)
Definition calculateChecksum (data : list Z) : Z :=
  fold_left (fun acc b => Z.lxor acc b) data 239.

Definition NewRequest (cmd : Z) (data : list Z) : Request :=
  {| Command := cmd; Data := data; Checksum := calculateChecksum data |}.

(** [Request.Encode]: [size := uint16(len(r.Data))]. *)
Definition Encode (r : Request) : list Z :=
  let size := to_uint16 (Z.of_nat (length (Data r))) in
  [DirRequest; Command r] ++ put_uint16 size ++ put_uint32 (Checksum r)
  ++ Data r.

(** The errors of [DecodeResponse] and [readResponse]. *)
Inductive error :=
| ErrTooShort (n : Z)
| ErrDirection (b : Z)
| ErrSizeMismatch (expected have : Z)
| ErrTimeout.

(** A call returns a value or an error, or it stops with a run-time
    panic (a slice or index out of range), which ends the program. *)
Inductive result (A : Type) :=
| Ok (a : A)
| Err (e : error)
| Panic.
Arguments Ok {A} a.
Arguments Err {A} e.
Arguments Panic {A}.

Definition is_err {A} (r : result A) : bool :=
  match r with Err _ => true | _ => false end.

Definition DecodeResponse (data : list Z) : result Response :=
  let len := Z.of_nat (length data) in
  if len <? 10 then Err (ErrTooShort len)
  else if negb (nth 0 data 0 =? DirResponse) then Err (ErrDirection (nth 0 data 0))
  else
    let dataSize := uint16_le (slice data 2 4) in
    let value := uint32_le (slice data 4 8) in
    if dataSize >? len - 8 then Err (ErrSizeMismatch dataSize (len - 8))
    else
      let ds := Z.to_nat dataSize in
      if dataSize >=? 2 then
        (* [dataSize] is a [uint16], so are [8+dataSize-2] and [8+dataSize-1]. *)
        let hi := to_uint16 (to_uint16 (8 + dataSize) - 2) in
        let ie := to_uint16 (to_uint16 (8 + dataSize) - 1) in
        (* [data[8:hi]] panics when [hi < 8] (its bound [hi <= cap(data)]
           holds, as [hi <= dataSize + 6 < len(data)]); [data[hi]] and
           [data[ie]] panic when out of range. *)
        if hi <? 8 then Panic
        else if negb ((hi <? len) && (ie <? len)) then Panic
        else
          Ok {| RCommand := nth 1 data 0; RData := slice data 8 (Z.to_nat hi);
                Value := value; Status := nth (Z.to_nat hi) data 0;
                Error := nth (Z.to_nat ie) data 0 |}
      else if dataSize >? 0 then
        Ok {| RCommand := nth 1 data 0; RData := slice data 8 (8 + ds);
              Value := value; Status := 0; Error := 0 |}
      else
        Ok {| RCommand := nth 1 data 0; RData := [];
              Value := value; Status := 0; Error := 0 |}.

Definition IsSuccess (r : Response) : bool :=
  (Status r =? 0) && (Error r =? 0).

(** [FlashDeflDataData]. *)
Definition FlashDeflDataData (compressedData : list Z) (seq : Z) : list Z :=
  put_uint32 (to_uint32 (Z.of_nat (length compressedData))) ++ put_uint32 seq
  ++ put_uint32 0 ++ put_uint32 0 ++ compressedData.

(** packet.go [CalculateDeflBlocks]. *)
Definition CalculateDeflBlocks (compressedLen blockSize : Z) : Z :=
  to_uint32 (Z.quot (wrap64 (wrap64 (compressedLen + blockSize) - 1)) blockSize).

(** packet.go [CalculateEraseSize]:
    [uint32((dataLen + FlashSectorSize - 1) / FlashSectorSize * FlashSectorSize)]. *)
Definition CalculateEraseSize (dataLen : Z) : Z :=
  to_uint32 (wrap64 (Z.quot (wrap64 (wrap64 (dataLen + FlashSectorSize) - 1))
                       FlashSectorSize * FlashSectorSize)).

(** esp32c3.go [CalculateEraseSize]. *)
Definition CalculateEraseSize_esp32c3 (size : Z) : Z :=
  let sectors := Z.quot size FlashSectorSize in
  let sectors := if negb (Z.rem size FlashSectorSize =? 0)
                 then wrap64 (sectors + 1) else sectors in
  to_uint32 (wrap64 (sectors * FlashSectorSize)).

End Protocol.

(** ** internal/flasher/flasher.go *)
Module Flasher.
Import GoInt Protocol.

(** The serial side of [sendCommand] is abstracted by an oracle: the
    [k]-th call of [sendCommand] in the session succeeds (frame written,
    response read and [IsSuccess]) iff [outcome k = true].  The driver
    state counts the calls and logs every request handed to
    [sendCommand], i.e. every request frame written to the port.  The
    oracle describes calls that return: a call whose [readResponse]
    panics (see [DecodeResponse]) ends the program, and such runs are
    not described by this model. *)
Record DriverState := {
  calls : nat;
  sent : list Request
}.

Section Driver.
Variable outcome : nat -> bool.

Definition sendCommand (req : Request) (st : DriverState) : bool * DriverState :=
  (outcome (calls st),
   {| calls := S (calls st); sent := sent st ++ [req] |}).

(** [for attempt := 0; attempt < 3; attempt++ { sendErr = f.sendCommand(blockReq);
    if sendErr == nil { break }; sleep; flush }]. *)
Fixpoint send_with_retry (attempts : nat) (req : Request) (st : DriverState)
  : bool * DriverState :=
  match attempts with
  | O => (false, st)
  | S a =>
      let (ok, st') := sendCommand req st in
      if ok then (true, st') else send_with_retry a req st'
  end.

(** The body of the block loop for sequence number [seq]. *)
Definition block_of (compressedData : list Z) (seq : nat) : list Z :=
  let blockSize := Z.to_nat FlashBlockSize in
  let start := (seq * blockSize)%nat in
  let end0 := (start + blockSize)%nat in
  let end_ := if Nat.ltb (length compressedData) end0
              then length compressedData else end0 in
  slice compressedData start end_.

Definition block_request (compressedData : list Z) (seq : nat) : Request :=
  NewRequest CmdFlashDeflData
    (FlashDeflDataData (block_of compressedData seq) (to_uint32 (Z.of_nat seq))).

(** [for seq := 0; seq < totalBlocks; seq++ { ... }]: [seq] is the current
    sequence number, [remaining] the iterations left. *)
Fixpoint stream_blocks (compressedData : list Z) (seq remaining : nat)
  (st : DriverState) : (DriverState * option nat) :=
  match remaining with
  | O => (st, None)
  | S r =>
      let (ok, st') := send_with_retry 3 (block_request compressedData seq) st in
      if ok then stream_blocks compressedData (S seq) r st'
      else (st', Some seq)   (* "flash defl data block %d failed" *)
  end.

(** The FLASH_DEFL_DATA phase of [FlashImageCompressed] (lines 116-159),
    started from driver state [st]; the second component is [Some seq]
    when the block [seq] failed. *)
Definition defl_data_phase (compressedData : list Z) (st : DriverState)
  : DriverState * option nat :=
  let numBlocks := CalculateDeflBlocks (Z.of_nat (length compressedData)) FlashBlockSize in
  let totalBlocks := Z.to_nat numBlocks in
  stream_blocks compressedData 0 totalBlocks st.

End Driver.

Definition init_state : DriverState := {| calls := 0; sent := [] |}.

(** [readResponse]: each element of [reads] is the outcome of one
    [ReadWithTimeout] before the deadline, the bytes read and whether an
    error was returned; exhausting [reads] is reaching the deadline. *)
Fixpoint readResponse_loop (reads : list (list Z * bool)) (buffer : list Z)
  : result Response :=
  match reads with
  | [] => Err ErrTimeout
  | (chunk, err) :: rest =>
      let n := length chunk in
      let buffer := if Nat.ltb 0 n then buffer ++ chunk else buffer in
      if err && Nat.eqb n 0 then readResponse_loop rest buffer
      else
        match Slip.ReadFrame buffer with
        | (Some frame, remaining) =>
            let data := Slip.Decode frame in
            if Nat.leb 10 (length data) then DecodeResponse data
            else readResponse_loop rest remaining
        | (None, _) => readResponse_loop rest buffer
        end
  end.

Definition readResponse (reads : list (list Z * bool)) : result Response :=
  readResponse_loop reads [].

End Flasher.

(** ** Statements in the words of the spec *)
Module SpecDefs.
Import Slip.

Definition no_end (l : list Z) : Prop := Forall (fun x => x <> End_) l.
Definition all_end (l : list Z) : Prop := Forall (fun x => x = End_) l.

(** The unescaping walk in the words of the spec: on [Esc] followed by
    [EscEnd] emit [End], on [Esc] followed by [EscEsc] emit [Esc], on
    [Esc] followed by any other byte emit that byte (each advancing two);
    otherwise copy the byte and advance one. *)
Fixpoint unescape (l : list Z) : list Z :=
  match l with
  | [] => []
  | b :: rest =>
      if b =? Esc then
        match rest with
        | c :: rest' =>
            (if c =? EscEnd then End_ else if c =? EscEsc then Esc else c)
            :: unescape rest'
        | [] => [Esc]
        end
      else b :: unescape rest
  end.

(** XOR of a list of bytes, in the words of the spec. *)
Definition xor_all (data : list Z) : Z := fold_right Z.lxor 0 data.

(** The oracle under which every [sendCommand] call succeeds. *)
Definition all_ok : nat -> bool := fun _ => true.

End SpecDefs.

(** ** internal/protocol/commands.go and [Response.ErrorString] *)
Module Messages.
Import Stdlib.Strings.String Stdlib.Strings.Ascii Protocol.
Local Open Scope string_scope.

(** Error codes from the ROM bootloader. *)
Definition ErrInvalidMessage : Z := 5.   (* 0x05 *)
Definition ErrFailedToAct : Z := 6.      (* 0x06 *)
Definition ErrInvalidCRC : Z := 7.       (* 0x07 *)
Definition ErrFlashWriteErr : Z := 8.    (* 0x08 *)
Definition ErrFlashReadErr : Z := 9.     (* 0x09 *)
Definition ErrFlashReadLenErr : Z := 10. (* 0x0A *)
Definition ErrDeflateError : Z := 11.    (* 0x0B *)

(** [ErrorMessage]: the [switch code]. *)
Definition ErrorMessage (code : Z) : string :=
  if (code =? ErrInvalidMessage)%Z then "invalid message"
  else if (code =? ErrFailedToAct)%Z then "failed to act"
  else if (code =? ErrInvalidCRC)%Z then "invalid CRC"
  else if (code =? ErrFlashWriteErr)%Z then "flash write error"
  else if (code =? ErrFlashReadErr)%Z then "flash read error"
  else if (code =? ErrFlashReadLenErr)%Z then "flash read length error"
  else if (code =? ErrDeflateError)%Z then "deflate error"
  else "unknown error".

(** [fmt]'s [%02X] on a byte: two upper-case hexadecimal digits. *)
Definition hex_digit (d : Z) : ascii :=
  ascii_of_nat (Z.to_nat (if d <? 10 then 48 + d else 55 + d)%Z).

Definition hex02 (b : Z) : string :=
  String (hex_digit (b / 16)%Z) (String (hex_digit (b mod 16)%Z) EmptyString).

(** packet.go [Response.ErrorString]. *)
Definition ErrorString (r : Response) : string :=
  if IsSuccess r then ""
  else "status=0x" ++ hex02 (Status r) ++ " error=0x" ++ hex02 (Error r)
       ++ " (" ++ ErrorMessage (Error r) ++ ")".

End Messages.

(** ** internal/protocol/packet.go: the payload builders *)
Module Packets.
Import GoInt Protocol.

(** commands.go *)
Definition CmdFlashEnd : Z := 4.          (* 0x04 *)
Definition CmdSync : Z := 8.              (* 0x08 *)
Definition CmdSpiSetParams : Z := 11.     (* 0x0B *)
Definition CmdSpiAttach : Z := 13.        (* 0x0D *)
Definition CmdFlashDeflBegin : Z := 16.   (* 0x10 *)
Definition CmdFlashDeflEnd : Z := 18.     (* 0x12 *)
Definition CmdGetSecurityInfo : Z := 20.  (* 0x14 *)

(** [make([]byte, n)]. *)
Definition make (n : nat) : list Z := repeat 0 n.

(** [b[i] = v] for an index [i] inside [b]. *)
Definition set_index (b : list Z) (i : nat) (v : Z) : list Z :=
  firstn i b ++ [v] ++ skipn (S i) b.

(** [binary.LittleEndian.PutUint32(b[off:off+4], v)] for [off+4 <= len(b)]:
    bytes [off..off+3] of [b] are overwritten. *)
Definition put_uint32_at (b : list Z) (off : nat) (v : Z) : list Z :=
  firstn off b ++ put_uint32 v ++ skipn (off + 4) b.

(** Go's [copy(dst, src)]: copies [min(len(dst), len(src))] elements. *)
Definition go_copy (dst src : list Z) : list Z :=
  firstn (length dst) src ++ skipn (length src) dst.

(** [SyncData]: [for i := 4; i < 36; i++ { data[i] = 0x55 }]. *)
Fixpoint sync_fill (fuel i : nat) (data : list Z) : list Z :=
  match fuel with
  | O => data
  | S f => if Nat.ltb i 36 then sync_fill f (S i) (set_index data i 85) else data
  end.

Definition SyncData : list Z :=
  let data := make 36 in
  let data := set_index data 0 7 in    (* 0x07 *)
  let data := set_index data 1 7 in    (* 0x07 *)
  let data := set_index data 2 18 in   (* 0x12 *)
  let data := set_index data 3 32 in   (* 0x20 *)
  sync_fill 36 4 data.

(** [FlashEndData(reboot)]. *)
Definition FlashEndData (reboot : bool) : list Z :=
  let data := make 4 in
  if reboot then put_uint32_at data 0 0 else put_uint32_at data 0 1.

(** [SpiAttachData]. *)
Definition SpiAttachData : list Z := make 8.

(** [SpiSetParamsData(totalSize)]. *)
Definition SpiSetParamsData (totalSize : Z) : list Z :=
  let data := make 24 in
  let data := put_uint32_at data 0 0 in
  let data := put_uint32_at data 4 totalSize in
  let data := put_uint32_at data 8 65536 in    (* 0x10000: block size *)
  let data := put_uint32_at data 12 4096 in    (* 0x1000: sector size *)
  let data := put_uint32_at data 16 256 in     (* 0x100: page size *)
  put_uint32_at data 20 65535.                 (* 0xFFFF: status mask *)

(** [FlashDeflBeginData(eraseSize, numBlocks, blockSize, offset)]. *)
Definition FlashDeflBeginData (eraseSize numBlocks blockSize offset : Z) : list Z :=
  let data := make 16 in
  let data := put_uint32_at data 0 eraseSize in
  let data := put_uint32_at data 4 numBlocks in
  let data := put_uint32_at data 8 blockSize in
  put_uint32_at data 12 offset.

(** [FlashDeflEndData(reboot)]. *)
Definition FlashDeflEndData (reboot : bool) : list Z :=
  let data := make 4 in
  if reboot then put_uint32_at data 0 0 else put_uint32_at data 0 1.

(** The two results of a [ParseSecurityInfo]: the info, or the error
    ["security info too short: %d bytes"]. *)
Inductive sec_result (A : Type) :=
| SecOk (a : A)
| SecTooShort (n : Z).
Arguments SecOk {A} a.
Arguments SecTooShort {A} n.

(** packet.go [ESP32C3Info] and [ParseSecurityInfo]. *)
Record ChipInfo := { ChipID : Z }.

Definition ParseSecurityInfo (data : list Z) : sec_result ChipInfo :=
  let len := Z.of_nat (length data) in
  if len <? 4 then SecTooShort len
  else SecOk {| ChipID := uint32_le (slice data 0 4) |}.

End Packets.

(** ** internal/protocol/esp32c3.go *)
Module Esp32c3.
Import GoInt Protocol Packets.

Record ESP32C3Info := {
  CChipID : Z;
  Revision : Z;
  Features : Z;
  MAC : list Z   (* [6]byte *)
}.

(** esp32c3.go [ParseSecurityInfo]: [info := &ESP32C3Info{}] leaves the
    other fields zero. *)
Definition ParseSecurityInfo (data : list Z) : sec_result ESP32C3Info :=
  let len := Z.of_nat (length data) in
  if len <? 12 then SecTooShort len
  else SecOk {| CChipID := uint32_le (slice data 0 4); Revision := 0;
                Features := 0; MAC := repeat 0 6 |}.

(** [ReadMACFromEfuse]. *)
Definition ReadMACFromEfuse (data : list Z) : list Z :=
  let mac := repeat 0 6 in
  if Nat.leb 6 (length data) then go_copy mac (slice data 0 6) else mac.

(** [CalculateFlashBlocks]. *)
Definition CalculateFlashBlocks (size : Z) : Z :=
  let blocks := Z.quot size FlashBlockSize in
  let blocks := if negb (Z.rem size FlashBlockSize =? 0)
                 then wrap64 (blocks + 1) else blocks in
  to_uint32 blocks.

End Esp32c3.

(** ** internal/flasher/flasher.go: connection and the whole
    compressed flash *)
Module Session.
Import GoInt Protocol Packets Flasher.

Definition sync_request : Request := NewRequest CmdSync SyncData.
Definition sync_frame : list Z := Slip.Encode (Protocol.Encode sync_request).

(** [sync]: the port is abstracted by [attempt_io a], for the attempt [a],
    whether [f.port.Write(frame)] succeeded and the reads seen by
    [f.readResponse(500 * time.Millisecond)], and by [drain_io i], the
    reads seen by the [i]-th of the seven draining
    [f.readResponse(100 * time.Millisecond)] calls after a successful
    attempt.  [Flush] has no effect on the result and the draining
    results are discarded, but a [readResponse] that panics ends the
    program.  The first component logs the frames written; the second
    is [Some true] for a [nil] error, [Some false] for "sync failed after
    10 attempts" and [None] for a panic. *)
Section Sync.
Variable attempt_io : nat -> bool * list (list Z * bool).
Variable drain_io : nat -> list (list Z * bool).

(** [for i := 0; i < 7; i++ { f.readResponse(100 * time.Millisecond) }]:
    [false] when one of the calls panics. *)
Fixpoint drain (i remaining : nat) : bool :=
  match remaining with
  | O => true
  | S r =>
      match readResponse (drain_io i) with
      | Panic => false
      | _ => drain (S i) r
      end
  end.

Fixpoint sync_loop (fuel attempt : nat) (writes : list (list Z))
  : list (list Z) * option bool :=
  match fuel with
  | O => (writes, Some false)   (* "sync failed after 10 attempts" *)
  | S f =>
      let (write_ok, reads) := attempt_io attempt in
      let writes := writes ++ [sync_frame] in
      if negb write_ok then sync_loop f (S attempt) writes
      else
        match readResponse reads with
        | Err _ => sync_loop f (S attempt) writes
        | Panic => (writes, None)
        | Ok resp =>
            if (RCommand resp =? CmdSync) && IsSuccess resp then
              (writes, if drain 0 7 then Some true else None)
            else sync_loop f (S attempt) writes
        end
  end.

Definition sync : list (list Z) * option bool := sync_loop 10 0 [].

End Sync.

Definition spiAttach_request : Request := NewRequest CmdSpiAttach SpiAttachData.

Definition spiSetParams_request (flashSize : Z) : Request :=
  NewRequest CmdSpiSetParams (SpiSetParamsData flashSize).

Inductive connect_error :=
| ErrResetToBootloader
| ErrSyncFailed
| ErrSpiAttach
| ErrSpiSetParams
| SyncPanicked.   (* not an error return: a panic inside [sync] *)

(** [Connect]: [reset_ok] is the outcome of [ResetToBootloader], then
    [sync] runs on [attempt_io] and [drain_io] and the two commands go
    through [sendCommand]. *)
Definition Connect (reset_ok : bool) (attempt_io : nat -> bool * list (list Z * bool))
  (drain_io : nat -> list (list Z * bool))
  (outcome : nat -> bool) (st : DriverState) : DriverState * option connect_error :=
  if negb reset_ok then (st, Some ErrResetToBootloader)
  else
    match snd (sync attempt_io drain_io) with
    | None => (st, Some SyncPanicked)
    | Some false => (st, Some ErrSyncFailed)
    | Some true =>
        let (ok1, st1) := sendCommand outcome spiAttach_request st in
        if negb ok1 then (st1, Some ErrSpiAttach)
        else
          let (ok2, st2) := sendCommand outcome (spiSetParams_request (16 * 1024 * 1024)) st1 in
          if negb ok2 then (st2, Some ErrSpiSetParams) else (st2, None)
    end.

Inductive flash_error :=
| ErrDeflBegin
| ErrDeflData (seq : nat).

(** The FLASH_DEFL_BEGIN request of [FlashImageCompressed] (lines 116-125). *)
Definition defl_begin_request (dataLen : nat) (compressedData : list Z) (address : Z)
  : Request :=
  let blockSize := FlashBlockSize in
  let numBlocks := CalculateDeflBlocks (Z.of_nat (length compressedData)) blockSize in
  let eraseSize := CalculateEraseSize (Z.of_nat dataLen) in
  NewRequest CmdFlashDeflBegin
    (FlashDeflBeginData eraseSize numBlocks (to_uint32 blockSize) address).

Definition defl_end_request : Request :=
  NewRequest CmdFlashDeflEnd (FlashDeflEndData false).

(** [FlashImageCompressed(data, address, verify)]: [compressedData] is
    the zlib stream of [data] (the compression is not modelled) and
    [dataLen] is [len(data)].  [sendCommandWithTimeout] is a call of the
    [sendCommand] oracle.  The FLASH_DEFL_END frame is written with
    [f.port.Write] and its write error and response are only printed, so
    they do not enter the result (the final [readResponse] is taken to
    return, as the [sendCommand] oracle is).  Returns the driver state, the frames
    written outside [sendCommand], and the error. *)
Definition FlashImageCompressed (outcome : nat -> bool) (dataLen : nat)
  (compressedData : list Z) (address : Z) (st : DriverState)
  : DriverState * list (list Z) * option flash_error :=
  let (ok, st1) := sendCommand outcome (defl_begin_request dataLen compressedData address) st in
  if negb ok then (st1, [], Some ErrDeflBegin)
  else
    match defl_data_phase outcome compressedData st1 with
    | (st2, Some seq) => (st2, [], Some (ErrDeflData seq))
    | (st2, None) => (st2, [Slip.Encode (Protocol.Encode defl_end_request)], None)
    end.

End Session.

(** ** cmd/papyrix-flasher/main.go: device detection *)
Module Detect.

Record Result := {
  Port : String.string;
  DChipID : Z;
  DChipName : String.string
}.

Inductive detect_error (E : Type) :=
| ErrListPorts (e : E)
| ErrNoPorts
| ErrNoDevice (lastErr : option E).
Arguments ErrListPorts {E} e.
Arguments ErrNoPorts {E}.
Arguments ErrNoDevice {E} lastErr.

(** [tryPort] on each port is abstracted by [tryPort]: the detected
    device, or the error. *)
Section Detect.
Variable E : Type.
Variable tryPort : String.string -> Result + E.

(** The loop of [DetectDevice] with [lastErr]. *)
Fixpoint detect_loop (ports : list String.string) (lastErr : option E)
  : option Result * option E :=
  match ports with
  | [] => (None, lastErr)
  | p :: rest =>
      match tryPort p with
      | inl r => (Some r, lastErr)
      | inr e => detect_loop rest (Some e)
      end
  end.

(** [DetectDevice]: [listPorts] is the result of [serial.ListPorts()]. *)
Definition DetectDevice (listPorts : list String.string + E) : Result + detect_error E :=
  match listPorts with
  | inr e => inr (ErrListPorts e)
  | inl [] => inr ErrNoPorts
  | inl ports =>
      match detect_loop ports None with
      | (Some r, _) => inl r
      | (None, lastErr) => inr (ErrNoDevice lastErr)
      end
  end.

(** The loop of [ListDevices]: [results = append(results, *result)]. *)
Fixpoint list_loop (ports : list String.string) (results : list Result) : list Result :=
  match ports with
  | [] => results
  | p :: rest =>
      match tryPort p with
      | inl r => list_loop rest (results ++ [r])
      | inr _ => list_loop rest results
      end
  end.

Definition ListDevices (listPorts : list String.string + E) : list Result + E :=
  match listPorts with
  | inr e => inr e
  | inl ports => inl (list_loop ports [])
  end.

End Detect.

End Detect.

(** ** Predicates used by the further properties *)
Module ExtraDefs.
Import Protocol Packets Flasher.



End ExtraDefs.

(** * Proofs *)

(** ** List helpers *)
Module ListFacts.

Lemma skipn_cons_nth {A} (l : list A) (i : nat) (d : A) :
  (i < length l)%nat -> skipn i l = nth i l d :: skipn (S i) l.
Proof.
  revert i; induction l as [|x l IH]; intros i Hi; simpl in Hi; [lia|].
  destruct i as [|i]; [reflexivity|].
  simpl. apply IH. lia.
Qed.

Lemma skipn_length_app {A} (l1 l2 : list A) (n : nat) :
  skipn (length l1 + n) (l1 ++ l2) = skipn n l2.
Proof. induction l1; simpl; auto. Qed.

Lemma firstn_length_app {A} (l1 l2 : list A) :
  firstn (length l1) (l1 ++ l2) = l1.
Proof. induction l1; simpl; f_equal; auto. Qed.

Lemma nth_app_length {A} (l1 l2 : list A) (n : nat) (d : A) :
  nth (length l1 + n) (l1 ++ l2) d = nth n l2 d.
Proof. induction l1; simpl; auto. Qed.

Lemma last_as_nth {A} (l : list A) (d : A) :
  l <> [] -> last l d = nth (length l - 1) l d.
Proof.
  induction l as [|x l IH]; intros H; [congruence|].
  destruct l as [|y l]; [reflexivity|].
  simpl in *. rewrite (IH ltac:(discriminate)). now rewrite Nat.sub_0_r.
Qed.


End ListFacts.

(** ** The framing codec *)
Module SlipProofs.
Import Slip ListFacts SpecDefs.

Lemma decode_loop_unescape (fuel : nat) (data : list Z) (i : nat) (acc : list Z) :
  (length data - i <= fuel)%nat ->
  decode_loop fuel data i acc = acc ++ unescape (skipn i data).
Proof.
  revert i acc; induction fuel as [|f IH]; intros i acc Hf; simpl.
  - rewrite skipn_all2 by lia. simpl. now rewrite app_nil_r.
  - destruct (Nat.ltb_spec i (length data)) as [Hi|Hi].
    + rewrite (skipn_cons_nth data i 0) by lia.
      destruct (Z.eqb_spec (nth i data 0) Esc) as [He|He];
        destruct (Nat.ltb_spec (i + 1) (length data)) as [Hi1|Hi1];
        cbn [andb].
      * rewrite (skipn_cons_nth data (S i) 0) by lia.
        cbn [unescape]. rewrite He, Z.eqb_refl. rewrite IH by lia.
        replace (S i) with (i + 1)%nat by lia.
        replace (S (i + 1)) with (i + 2)%nat by lia.
        now rewrite <- app_assoc.
      * rewrite (skipn_all2 data (n := S i)) by lia.
        cbn [unescape]. rewrite He, Z.eqb_refl.
        rewrite IH by lia. rewrite skipn_all2 by lia.
        cbn [unescape]. now rewrite <- app_assoc.
      * cbn [unescape]. rewrite IH by lia. replace (i + 1)%nat with (S i) by lia.
        apply Z.eqb_neq in He. rewrite He. now rewrite <- app_assoc.
      * cbn [unescape]. rewrite IH by lia. replace (i + 1)%nat with (S i) by lia.
        apply Z.eqb_neq in He. rewrite He. now rewrite <- app_assoc.
    + rewrite skipn_all2 by lia. simpl. now rewrite app_nil_r.
Qed.

Lemma strip_start_spec (fuel : nat) (frame : list Z) (s k e : nat) :
  (s <= k <= e)%nat -> (e - s <= fuel)%nat ->
  (forall j, (s <= j < k)%nat -> nth j frame 0 = End_) ->
  ((k < e)%nat -> nth k frame 0 <> End_) ->
  strip_start fuel frame s e = k.
Proof.
  revert s; induction fuel as [|f IH]; intros s Hk Hf Hrun Hstop; simpl.
  - lia.
  - destruct (Nat.ltb_spec s e) as [Hse|Hse]; cbn [andb].
    + destruct (Nat.eq_dec s k) as [->|Hne].
      * apply Z.eqb_neq in Hstop; [|lia]. now rewrite Hstop.
      * rewrite Hrun by lia. rewrite Z.eqb_refl.
        apply IH; auto; try lia.
        intros j Hj. apply Hrun. lia.
    + lia.
Qed.

Lemma strip_end_spec (fuel : nat) (frame : list Z) (s k e : nat) :
  (s <= k <= e)%nat -> (e - s <= fuel)%nat ->
  (forall j, (k <= j < e)%nat -> nth j frame 0 = End_) ->
  ((s < k)%nat -> nth (k - 1) frame 0 <> End_) ->
  strip_end fuel frame s e = k.
Proof.
  revert e; induction fuel as [|f IH]; intros e Hk Hf Hrun Hstop; simpl.
  - lia.
  - destruct (Nat.ltb_spec s e) as [Hse|Hse]; cbn [andb].
    + destruct (Nat.eq_dec e k) as [->|Hne].
      * apply Z.eqb_neq in Hstop; [|lia]. now rewrite Hstop.
      * rewrite Hrun by lia. rewrite Z.eqb_refl.
        apply IH; auto; try lia.
        intros j Hj. apply Hrun. lia.
    + lia.
Qed.

Lemma nth_all_end (l : list Z) (j : nat) :
  all_end l -> (j < length l)%nat -> nth j l 0 = End_.
Proof.
  intros Hl. revert j; induction Hl as [|x l Hx Hl IH]; intros j Hj;
    simpl in Hj; [lia|].
  destruct j; simpl; auto. apply IH. lia.
Qed.

(** Decode on a frame [pre ++ body ++ post] whose delimiter runs are
    [pre] and [post]. *)
Lemma Decode_frame (pre body post : list Z) :
  all_end pre -> all_end post ->
  (body = [] \/ (hd 0 body <> End_ /\ last body 0 <> End_)) ->
  Decode (pre ++ body ++ post) =
    if Nat.ltb (length (pre ++ body ++ post)) 2 then [] else unescape body.
Proof.
  intros Hpre Hpost Hbody. unfold Decode.
  set (frame := pre ++ body ++ post).
  assert (Hlen : length frame = (length pre + length body + length post)%nat)
    by (unfold frame; rewrite !length_app; lia).
  assert (Npre : forall j, (j < length pre)%nat -> nth j frame 0 = End_).
  { intros j Hj. unfold frame. rewrite app_nth1 by lia. now apply nth_all_end. }
  assert (Npost : forall j, (length pre + length body <= j < length frame)%nat ->
                            nth j frame 0 = End_).
  { intros j Hj. unfold frame.
    rewrite app_nth2 by lia. rewrite app_nth2 by lia.
    apply nth_all_end; auto. lia. }
  destruct (Nat.ltb_spec (length frame) 2) as [H2|H2]; [reflexivity|].
  destruct (list_eq_dec Z.eq_dec body []) as [->|Hne].
  - simpl in Hlen.
    rewrite (strip_start_spec _ _ 0 (length frame) (length frame)); try lia.
    2:{ intros j Hj. destruct (Nat.ltb_spec j (length pre)).
        - now apply Npre.
        - apply Npost. simpl. lia. }
    rewrite (strip_end_spec _ _ (length frame) (length frame) (length frame));
      try lia.
    rewrite Nat.leb_refl. reflexivity.
  - destruct Hbody as [Hb0|[Hhd Hlast]]; [congruence|].
    assert (Hb : (0 < length body)%nat)
      by (destruct body; [congruence|simpl; lia]).
    rewrite (strip_start_spec _ _ 0 (length pre) (length frame)); try lia.
    2:{ intros j Hj. apply Npre. lia. }
    2:{ intros _. unfold frame. rewrite <- (Nat.add_0_r (length pre)).
        rewrite nth_app_length. rewrite app_nth1 by lia.
        destruct body; [congruence|exact Hhd]. }
    rewrite (strip_end_spec _ _ (length pre) (length pre + length body)
               (length frame)); try lia.
    2:{ intros j Hj. apply Npost. lia. }
    2:{ intros _. unfold frame.
        replace (length pre + length body - 1)%nat
          with (length pre + (length body - 1))%nat by lia.
        rewrite nth_app_length. rewrite app_nth1 by lia.
        rewrite <- last_as_nth by exact Hne. exact Hlast. }
    destruct (Nat.leb_spec (length pre + length body) (length pre)) as [Hc|_];
      [lia|].
    assert (Hsl : slice frame (length pre) (length pre + length body) = body).
    { unfold slice, frame.
      replace (length pre + length body - length pre)%nat with (length body)
        by lia.
      rewrite <- (Nat.add_0_r (length pre)), skipn_length_app. simpl.
      apply firstn_length_app. }
    rewrite Hsl. rewrite decode_loop_unescape by lia. reflexivity.
Qed.

Lemma flat_map_encode_no_end (b : list Z) : no_end (flat_map encode_byte b).
Proof.
  unfold no_end. induction b as [|x b IH]; simpl; [constructor|].
  apply Forall_app; split; auto.
  unfold encode_byte, End_, Esc, EscEnd, EscEsc.
  destruct (Z.eqb_spec x 192); [|destruct (Z.eqb_spec x 219)];
    repeat constructor; lia.
Qed.

Lemma unescape_encode (b : list Z) : unescape (flat_map encode_byte b) = b.
Proof.
  induction b as [|x b IH]; [reflexivity|].
  cbn [flat_map].
  destruct (Z.eqb_spec x End_) as [Hx|Hx];
    [|destruct (Z.eqb_spec x Esc) as [Hy|Hy]].
  - assert (E : encode_byte x = [Esc; EscEnd])
      by (unfold encode_byte; now rewrite Hx, Z.eqb_refl).
    rewrite E. cbn [app unescape]. rewrite IH, Hx. reflexivity.
  - assert (E : encode_byte x = [Esc; EscEsc]).
    { unfold encode_byte. apply Z.eqb_neq in Hx. now rewrite Hx, Hy, Z.eqb_refl. }
    rewrite E. cbn [app unescape]. rewrite IH, Hy. reflexivity.
  - assert (E : encode_byte x = [x]).
    { unfold encode_byte. apply Z.eqb_neq in Hx, Hy. now rewrite Hx, Hy. }
    rewrite E. cbn [app unescape].
    apply Z.eqb_neq in Hy. rewrite Hy, IH. reflexivity.
Qed.

Lemma no_end_hd_last (l : list Z) :
  no_end l -> l = [] \/ (hd 0 l <> End_ /\ last l 0 <> End_).
Proof.
  intros H. destruct l as [|x l]; [now left|right]. split.
  - now inversion H.
  - rewrite last_as_nth by discriminate.
    apply (proj1 (Forall_nth _ _) H (length (x :: l) - 1)%nat 0). simpl; lia.
Qed.

Lemma find_start_sound (i k : nat) (data : list Z) :
  find_start i data = Some k ->
  exists pre rest, data = pre ++ End_ :: rest /\ no_end pre /\
                   k = (i + length pre)%nat.
Proof.
  revert i; induction data as [|b data IH]; intros i H; simpl in H; [discriminate|].
  destruct (Z.eqb_spec b End_) as [->|Hb].
  - injection H as <-. exists [], data. repeat split; [constructor|simpl; lia].
  - destruct (IH _ H) as (pre & rest & -> & Hpre & ->).
    exists (b :: pre), rest. repeat split; [constructor; auto|simpl; lia].
Qed.

Lemma find_start_complete (i : nat) (pre rest : list Z) :
  no_end pre -> find_start i (pre ++ End_ :: rest) = Some (i + length pre)%nat.
Proof.
  intros Hpre. revert i; induction Hpre as [|b pre Hb Hpre IH]; intros i; simpl.
  - now rewrite ?Z.eqb_refl, Nat.add_0_r.
  - apply Z.eqb_neq in Hb. rewrite Hb, IH. f_equal. lia.
Qed.

Lemma find_close_true_sound (i k : nat) (l : list Z) :
  find_close true i l = Some k ->
  exists m rest, l = m ++ End_ :: rest /\ no_end m /\ k = (i + length m)%nat.
Proof.
  revert i; induction l as [|b l IH]; intros i H; simpl in H; [discriminate|].
  destruct (Z.eqb_spec b End_) as [->|Hb].
  - injection H as <-. exists [], l. repeat split; [constructor|simpl; lia].
  - destruct (IH _ H) as (m & rest & -> & Hm & ->).
    exists (b :: m), rest. repeat split; [constructor; auto|simpl; lia].
Qed.

Lemma find_close_true_complete (i : nat) (m rest : list Z) :
  no_end m -> find_close true i (m ++ End_ :: rest) = Some (i + length m)%nat.
Proof.
  intros Hm. revert i; induction Hm as [|b m Hb Hm IH]; intros i; simpl.
  - now rewrite ?Z.eqb_refl, Nat.add_0_r.
  - apply Z.eqb_neq in Hb. rewrite Hb, IH. f_equal. lia.
Qed.

Lemma find_close_false_sound (i k : nat) (l : list Z) :
  find_close false i l = Some k ->
  exists m1 m2 rest, l = m1 ++ m2 ++ End_ :: rest /\ all_end m1 /\
    m2 <> [] /\ no_end m2 /\ k = (i + length m1 + length m2)%nat.
Proof.
  revert i; induction l as [|b l IH]; intros i H; simpl in H; [discriminate|].
  destruct (Z.eqb_spec b End_) as [->|Hb].
  - destruct (IH _ H) as (m1 & m2 & rest & -> & H1 & H2 & H3 & ->).
    exists (End_ :: m1), m2, rest. split; [reflexivity|].
    split; [constructor; auto|]. do 2 (split; [assumption|]). simpl; lia.
  - destruct (find_close_true_sound _ _ _ H) as (m & rest & -> & Hm & ->).
    exists [], (b :: m), rest. split; [reflexivity|].
    split; [constructor|]. split; [discriminate|].
    split; [constructor; auto|]. simpl; lia.
Qed.

Lemma find_close_false_complete (i : nat) (m1 m2 rest : list Z) :
  all_end m1 -> m2 <> [] -> no_end m2 ->
  find_close false i (m1 ++ m2 ++ End_ :: rest)
    = Some (i + length m1 + length m2)%nat.
Proof.
  intros H1. revert i; induction H1 as [|b m1 Hb H1 IH]; intros i H2 H3; simpl.
  - destruct m2 as [|c m2]; [congruence|].
    inversion H3 as [|c' m2' Hc0 Hm2]; subst. simpl.
    apply Z.eqb_neq in Hc0 as Hc. rewrite Hc.
    rewrite find_close_true_complete by assumption. f_equal. lia.
  - subst b. rewrite ?Z.eqb_refl, IH by assumption. f_equal. lia.
Qed.

(** ReadFrame returns a frame exactly on a buffer of the shape
    [pre ++ (End :: m1 ++ m2 ++ [End]) ++ rest]. *)
Lemma ReadFrame_complete (pre m1 m2 rest : list Z) :
  no_end pre -> all_end m1 -> m2 <> [] -> no_end m2 ->
  ReadFrame (pre ++ (End_ :: m1 ++ m2 ++ [End_]) ++ rest)
    = (Some (End_ :: m1 ++ m2 ++ [End_]), rest).
Proof.
  intros Hpre H1 H2 H3. unfold ReadFrame.
  set (fr := End_ :: m1 ++ m2 ++ [End_]).
  assert (Efr : fr ++ rest = End_ :: m1 ++ m2 ++ End_ :: rest)
    by (unfold fr; simpl; now rewrite <- !app_assoc).
  rewrite Efr, find_start_complete by assumption.
  rewrite Nat.add_0_l, <- (Nat.add_0_r (length pre)), skipn_length_app, skipn_O.
  cbn [find_close]. rewrite ?Z.eqb_refl.
  rewrite find_close_false_complete by assumption.
  rewrite <- Efr. unfold slice.
  assert (Hl : length fr = (length m1 + length m2 + 2)%nat)
    by (unfold fr; simpl; rewrite !length_app; simpl; lia).
  replace (S (length pre + 0) + length m1 + length m2 + 1 - (length pre + 0))%nat
    with (length fr) by lia.
  rewrite skipn_length_app, skipn_O, firstn_length_app.
  replace (S (length pre + 0) + length m1 + length m2 + 1)%nat
    with (length pre + (length fr + 0))%nat by lia.
  rewrite skipn_length_app, skipn_length_app. reflexivity.
Qed.

Lemma ReadFrame_sound (data fr rest : list Z) :
  ReadFrame data = (Some fr, rest) ->
  exists pre m1 m2, data = pre ++ fr ++ rest /\ fr = End_ :: m1 ++ m2 ++ [End_] /\
    no_end pre /\ all_end m1 /\ m2 <> [] /\ no_end m2.
Proof.
  unfold ReadFrame. intros H.
  destruct (find_start 0 data) as [start|] eqn:Es; [|discriminate].
  destruct (find_start_sound _ _ _ Es) as (pre & tl & -> & Hpre & ->).
  rewrite Nat.add_0_l, <- (Nat.add_0_r (length pre)), skipn_length_app, skipn_O in H.
  cbn [find_close] in H. rewrite ?Z.eqb_refl in H.
  destruct (find_close false (S (length pre + 0)) tl) as [i|] eqn:Ec; [|discriminate].
  destruct (find_close_false_sound _ _ _ Ec) as (m1 & m2 & rest' & -> & H1 & H2 & H3 & ->).
  exists pre, m1, m2.
  set (fr' := End_ :: m1 ++ m2 ++ [End_]).
  assert (Efr : fr' ++ rest' = End_ :: m1 ++ m2 ++ End_ :: rest')
    by (unfold fr'; simpl; now rewrite <- !app_assoc).
  assert (Hl : length fr' = (length m1 + length m2 + 2)%nat)
    by (unfold fr'; simpl; rewrite !length_app; simpl; lia).
  rewrite <- Efr in H. unfold slice in H.
  replace (S (length pre + 0) + length m1 + length m2 + 1 - (length pre + 0))%nat
    with (length fr') in H by lia.
  rewrite skipn_length_app, skipn_O, firstn_length_app in H.
  replace (S (length pre + 0) + length m1 + length m2 + 1)%nat
    with (length pre + (length fr' + 0))%nat in H by lia.
  rewrite skipn_length_app, skipn_length_app in H.
  injection H as <- <-. split; [now rewrite Efr|].
  split; [reflexivity|]. repeat (split; [assumption|]). assumption.
Qed.

End SlipProofs.

(** ** Packet layout *)
Module ProtocolProofs.
Import GoInt Protocol ListFacts SpecDefs.

Lemma land255_mod (v : Z) : Z.land v 255 = v mod 256.
Proof. change 255 with (Z.ones 8). now rewrite Z.land_ones by lia. Qed.

Lemma uint16_le_put (v : Z) : 0 <= v < 2 ^ 16 -> uint16_le (put_uint16 v) = v.
Proof.
  intros Hv. unfold uint16_le, put_uint16. cbn [nth].
  rewrite !land255_mod, Z.shiftr_div_pow2, Z.shiftl_mul_pow2 by lia.
  change (2 ^ 8) with 256.
  rewrite (Z.mod_small (v / 256)) by (split; [apply Z.div_pos|apply Z.div_lt_upper_bound]; lia).
  pose proof (Z.div_mod v 256 ltac:(lia)). lia.
Qed.

Lemma uint32_le_put (v : Z) : 0 <= v < 2 ^ 32 -> uint32_le (put_uint32 v) = v.
Proof.
  intros Hv. unfold uint32_le, put_uint32. cbn [nth].
  rewrite !land255_mod, !Z.shiftr_div_pow2, !Z.shiftl_mul_pow2 by lia.
  change (2 ^ 8) with 256. change (2 ^ 16) with (256 * 256).
  change (2 ^ 24) with (256 * 256 * 256).
  rewrite <- !Z.div_div by lia.
  set (q1 := v / 256). set (q2 := q1 / 256). set (q3 := q2 / 256).
  pose proof (Z.div_mod v 256 ltac:(lia)).
  pose proof (Z.div_mod q1 256 ltac:(lia)).
  pose proof (Z.div_mod q2 256 ltac:(lia)).
  assert (0 <= q3 < 256).
  { unfold q3, q2, q1. rewrite !Z.div_div by lia.
    split; [apply Z.div_pos|apply Z.div_lt_upper_bound]; lia. }
  rewrite (Z.mod_small q3) by lia.
  pose proof (Z.mod_pos_bound v 256 ltac:(lia)).
  pose proof (Z.mod_pos_bound q1 256 ltac:(lia)).
  pose proof (Z.mod_pos_bound q2 256 ltac:(lia)).
  lia.
Qed.

Lemma lxor_byte (a b : Z) : is_byte a -> is_byte b -> is_byte (Z.lxor a b).
Proof.
  unfold is_byte. intros Ha Hb. split.
  - apply Z.lxor_nonneg; lia.
  - destruct (Z.eq_dec (Z.lxor a b) 0) as [->|Hn]; [lia|].
    assert (0 < Z.lxor a b) by (pose proof (proj2 (Z.lxor_nonneg a b)); lia).
    change 256 with (2 ^ 8). apply Z.log2_lt_pow2; [lia|].
    pose proof (Z.log2_lxor a b ltac:(lia) ltac:(lia)).
    assert (Z.log2 a < 8).
    { destruct (Z.eq_dec a 0) as [->|]; [simpl; lia|].
      apply Z.log2_lt_pow2; [lia|]. change (2 ^ 8) with 256. lia. }
    assert (Z.log2 b < 8).
    { destruct (Z.eq_dec b 0) as [->|]; [simpl; lia|].
      apply Z.log2_lt_pow2; [lia|]. change (2 ^ 8) with 256. lia. }
    lia.
Qed.

Lemma fold_lxor (data : list Z) (acc : Z) :
  fold_left (fun a b => Z.lxor a b) data acc = Z.lxor acc (xor_all data).
Proof.
  revert acc; induction data as [|x data IH]; intros acc; simpl.
  - now rewrite Z.lxor_0_r.
  - rewrite IH. now rewrite Z.lxor_assoc.
Qed.

Lemma checksum_byte (data : list Z) :
  Forall is_byte data -> is_byte (calculateChecksum data).
Proof.
  unfold calculateChecksum. intros H.
  assert (Hacc : is_byte 239) by (unfold is_byte; lia).
  revert Hacc. generalize 239. induction H as [|x data Hx H IH]; intros acc Hacc; simpl.
  - exact Hacc.
  - apply IH. now apply lxor_byte.
Qed.

Lemma Encode_slices (cmd : Z) (data : list Z) :
  let pkt := Encode (NewRequest cmd data) in
  length pkt = (8 + length data)%nat /\
  nth 0 pkt 0 = DirRequest /\ nth 1 pkt 0 = cmd /\
  slice pkt 2 4 = put_uint16 (to_uint16 (Z.of_nat (length data))) /\
  slice pkt 4 8 = put_uint32 (calculateChecksum data) /\
  skipn 8 pkt = data.
Proof.
  cbn zeta. unfold Encode, NewRequest, slice. cbn [Data Command Checksum].
  repeat split; reflexivity.
Qed.



(** While [8 + dataSize] does not wrap as a [uint16], the declared
    payload splits into data, status and error. *)
Lemma DecodeResponse_ok_small (data : list Z) :
  let ds := uint16_le (slice data 2 4) in
  10 <= Z.of_nat (length data) -> nth 0 data 0 = DirResponse ->
  2 <= ds <= 65528 -> ds <= Z.of_nat (length data) - 8 ->
  DecodeResponse data =
    Ok {| RCommand := nth 1 data 0; RData := slice data 8 (8 + Z.to_nat ds - 2);
          Value := uint32_le (slice data 4 8);
          Status := nth (8 + Z.to_nat ds - 2) data 0;
          Error := nth (8 + Z.to_nat ds - 1) data 0 |}.
Proof.
  cbn zeta. intros H10 Hd Hds Hm. unfold DecodeResponse. cbn zeta.
  destruct (Z.ltb_spec (Z.of_nat (length data)) 10); [lia|].
  rewrite Hd, Z.eqb_refl. cbn [negb]. rewrite Z.gtb_ltb.
  set (ds := uint16_le (slice data 2 4)) in *. clearbody ds.
  destruct (Z.ltb_spec (Z.of_nat (length data) - 8) ds); [lia|].
  destruct (Z.geb_spec ds 2); [|lia].
  assert (Ehi : to_uint16 (to_uint16 (8 + ds) - 2) = ds + 6)
    by (unfold to_uint16; rewrite Zminus_mod_idemp_l; change (2 ^ 16) with 65536;
        rewrite Z.mod_small; lia).
  assert (Eie : to_uint16 (to_uint16 (8 + ds) - 1) = ds + 7)
    by (unfold to_uint16; rewrite Zminus_mod_idemp_l; change (2 ^ 16) with 65536;
        rewrite Z.mod_small; lia).
  rewrite Ehi, Eie.
  destruct (Z.ltb_spec (ds + 6) 8); [lia|].
  destruct (Z.ltb_spec (ds + 6) (Z.of_nat (length data))); [|lia].
  destruct (Z.ltb_spec (ds + 7) (Z.of_nat (length data))); [|lia].
  cbn [andb negb].
  replace (Z.to_nat (ds + 6)) with (8 + Z.to_nat ds - 2)%nat by lia.
  replace (Z.to_nat (ds + 7)) with (8 + Z.to_nat ds - 1)%nat by lia.
  reflexivity.
Qed.

Lemma wrap64_small (z : Z) : - 2 ^ 63 <= z < 2 ^ 63 -> wrap64 z = z.
Proof. intros H. unfold wrap64. rewrite Z.mod_small by lia. lia. Qed.

Lemma wrap64_add (a b : Z) : wrap64 (wrap64 a + b) = wrap64 (a + b).
Proof.
  unfold wrap64. f_equal.
  rewrite (Z.mod_eq (a + 2 ^ 63)) by lia.
  replace ((a + 2 ^ 63) - 2 ^ 64 * ((a + 2 ^ 63) / 2 ^ 64) - 2 ^ 63 + b + 2 ^ 63)
    with ((a + b + 2 ^ 63) + (- ((a + 2 ^ 63) / 2 ^ 64)) * 2 ^ 64) by ring.
  now rewrite Z.mod_add by lia.
Qed.

Lemma to_uint32_wrap64 (z : Z) : to_uint32 (wrap64 z) = to_uint32 z.
Proof.
  unfold to_uint32, wrap64.
  rewrite (Z.mod_eq (z + 2 ^ 63)) by lia.
  replace (z + 2 ^ 63 - 2 ^ 64 * ((z + 2 ^ 63) / 2 ^ 64) - 2 ^ 63)
    with (z + (- (2 ^ 32 * ((z + 2 ^ 63) / 2 ^ 64))) * 2 ^ 32) by ring.
  apply Z.mod_add. lia.
Qed.

Lemma ceil_div_4096 (n : Z) :
  0 <= n ->
  n / 4096 + (if negb (n mod 4096 =? 0) then 1 else 0) = (n + 4095) / 4096.
Proof.
  intros Hn. pose proof (Z.div_mod n 4096 ltac:(lia)) as Hd.
  pose proof (Z.mod_pos_bound n 4096 ltac:(lia)) as Hr.
  destruct (Z.eqb_spec (n mod 4096) 0) as [H0|H0]; cbn [negb].
  - apply (Z.div_unique _ _ _ 4095); lia.
  - apply (Z.div_unique _ _ _ (n mod 4096 - 1)); lia.
Qed.

End ProtocolProofs.

(** ** The flashing driver *)
Module FlasherProofs.
Import GoInt Protocol ProtocolProofs Flasher ListFacts SpecDefs.

Lemma stream_blocks_all_ok (cd : list Z) (seq0 r : nat) (st : DriverState) :
  stream_blocks all_ok cd seq0 r st =
    ({| calls := (calls st + r)%nat;
        sent := sent st ++ map (block_request cd) (List.seq seq0 r) |}, None).
Proof.
  revert seq0 st; induction r as [|r IH]; intros seq0 st; simpl.
  - rewrite Nat.add_0_r, app_nil_r. now destruct st.
  - rewrite IH. simpl. f_equal. f_equal.
    + lia.
    + now rewrite <- app_assoc.
Qed.

Lemma CalculateDeflBlocks_small (L : nat) :
  Z.of_nat L <= (2 ^ 32 - 1) * 1024 ->
  CalculateDeflBlocks (Z.of_nat L) FlashBlockSize = Z.of_nat ((L + 1023) / 1024).
Proof.
  intros HL. unfold CalculateDeflBlocks, FlashBlockSize.
  assert (Ha : wrap64 (wrap64 (Z.of_nat L + 1024) - 1) = Z.of_nat L + 1023).
  { unfold Z.sub. rewrite wrap64_add. rewrite wrap64_small; lia. }
  rewrite Ha, Z.quot_div_nonneg by lia.
  rewrite Nat2Z.inj_div, Nat2Z.inj_add. cbn [Z.of_nat Pos.of_succ_nat].
  unfold to_uint32. apply Z.mod_small. split.
  - apply Z.div_pos; lia.
  - apply Z.div_lt_upper_bound; lia.
Qed.

Lemma block_of_slice (cd : list Z) (s : nat) :
  block_of cd s = firstn 1024 (skipn (1024 * s) cd).
Proof.
  unfold block_of, slice, FlashBlockSize. change (Z.to_nat 1024) with 1024%nat.
  rewrite (Nat.mul_comm s 1024).
  destruct (Nat.ltb_spec (length cd) (1024 * s + 1024)) as [H|H].
  - rewrite firstn_all2 by (rewrite length_skipn; lia).
    rewrite firstn_all2 by (rewrite length_skipn; lia). reflexivity.
  - f_equal. lia.
Qed.

Lemma length_map_seq {A} (f : nat -> A) (n : nat) :
  length (map f (List.seq 0 n)) = n.
Proof. now rewrite length_map, length_seq. Qed.

Lemma FlashDeflDataData_fields (blk : list Z) (seq : Z) :
  let p := FlashDeflDataData blk seq in
  slice p 0 4 = put_uint32 (to_uint32 (Z.of_nat (length blk))) /\
  slice p 4 8 = put_uint32 seq /\
  slice p 8 12 = put_uint32 0 /\ slice p 12 16 = put_uint32 0 /\
  skipn 16 p = blk /\ length p = (16 + length blk)%nat.
Proof.
  cbn zeta. unfold FlashDeflDataData, slice, put_uint32.
  repeat split; reflexivity.
Qed.

End FlasherProofs.

(** * The claims *)
(** ** Helpers for the claims and the further properties *)
Module ExtraFacts.
Import ListFacts GoInt Protocol ProtocolProofs Slip SlipProofs SpecDefs Flasher Packets.

Lemma flat_map_encode_length (b : list Z) :
  length (flat_map encode_byte b) =
    (length b + length (filter (fun x => ((x =? End_) || (x =? Esc))%Z) b))%nat.
Proof.
  induction b as [|x b IH]; [reflexivity|].
  cbn [flat_map filter]. rewrite length_app, IH. unfold encode_byte.
  destruct (x =? End_); [|destruct (x =? Esc)]; cbn [orb length]; lia.
Qed.

Lemma unescape_length (l : list Z) : (length (unescape l) <= length l)%nat.
Proof.
  remember (length l) as n eqn:Hn. revert l Hn.
  induction n as [n IH] using lt_wf_ind. intros l Hn; subst n.
  destruct l as [|b rest]; [simpl; lia|].
  cbn [unescape]. destruct (b =? Esc).
  - destruct rest as [|c rest']; [simpl; lia|].
    cbn [length]. specialize (IH (length rest') ltac:(simpl; lia) rest' eq_refl). lia.
  - cbn [length]. specialize (IH (length rest) ltac:(simpl; lia) rest eq_refl). lia.
Qed.

(** [ceil(n / k)] written as the quotient plus one on a remainder. *)
Lemma ceil_div (k n : Z) :
  0 < k -> 0 <= n ->
  n / k + (if negb (n mod k =? 0) then 1 else 0) = (n + (k - 1)) / k.
Proof.
  intros Hk Hn. pose proof (Z.div_mod n k ltac:(lia)) as Hd.
  pose proof (Z.mod_pos_bound n k Hk) as Hr.
  destruct (Z.eqb_spec (n mod k) 0) as [H0|H0]; cbn [negb].
  - apply (Z.div_unique _ _ _ (k - 1)); lia.
  - apply (Z.div_unique _ _ _ (n mod k - 1)); lia.
Qed.

Lemma CalculateDeflBlocks_ceil (n : Z) :
  0 <= n <= 2 ^ 63 - 1024 ->
  CalculateDeflBlocks n FlashBlockSize = to_uint32 ((n + 1023) / 1024).
Proof.
  intros Hn. unfold CalculateDeflBlocks, FlashBlockSize.
  assert (Ha : wrap64 (wrap64 (n + 1024) - 1) = n + 1023).
  { unfold Z.sub. rewrite wrap64_add. rewrite wrap64_small; lia. }
  rewrite Ha, Z.quot_div_nonneg by lia. reflexivity.
Qed.

Lemma CalculateEraseSize_ceil (n : Z) :
  0 <= n <= 2 ^ 63 - 4096 ->
  CalculateEraseSize n = to_uint32 ((n + 4095) / 4096 * 4096).
Proof.
  intros Hn. unfold CalculateEraseSize, FlashSectorSize.
  assert (Ha : wrap64 (wrap64 (n + 4096) - 1) = n + 4095).
  { unfold Z.sub. rewrite wrap64_add. rewrite wrap64_small; lia. }
  rewrite Ha, Z.quot_div_nonneg by lia.
  now rewrite to_uint32_wrap64.
Qed.

Lemma count_occ_firstn (l : list Z) (k : nat) (x : Z) :
  (count_occ Z.eq_dec (firstn k l) x <= count_occ Z.eq_dec l x)%nat.
Proof.
  revert k; induction l as [|y l IH]; intros [|k]; simpl; try lia.
  destruct (Z.eq_dec y x); specialize (IH k); lia.
Qed.

Lemma no_end_count (l : list Z) : no_end l -> count_occ Z.eq_dec l End_ = 0%nat.
Proof.
  induction 1 as [|y l Hy _ IH]; [reflexivity|].
  rewrite count_occ_cons_neq by congruence. exact IH.
Qed.

Lemma Decode_Encode (p : list Z) : Slip.Decode (Slip.Encode p) = p.
Proof.
  unfold Slip.Encode.
  rewrite (Decode_frame [End_] (flat_map encode_byte p) [End_]).
  - rewrite !length_app. simpl.
    replace (Nat.ltb _ 2) with false by (symmetry; apply Nat.ltb_ge; lia).
    apply unescape_encode.
  - repeat constructor.
  - repeat constructor.
  - apply no_end_hd_last, flat_map_encode_no_end.
Qed.

Lemma flat_map_encode_nonempty (p : list Z) : p <> [] -> flat_map encode_byte p <> [].
Proof.
  destruct p as [|a p]; [congruence|]. intros _. cbn [flat_map].
  unfold encode_byte. destruct (a =? End_); [|destruct (a =? Esc)]; discriminate.
Qed.

(** A buffer that is a prefix of [junk ++ End :: body] with [junk] and
    [body] free of [End] holds no complete frame. *)
Lemma ReadFrame_prefix_none (junk body rest x y : list Z) :
  no_end junk -> no_end body ->
  x ++ y = junk ++ End_ :: body ++ End_ :: rest ->
  (length x <= length junk + length body + 1)%nat ->
  fst (Slip.ReadFrame x) = None.
Proof.
  intros Hj Hb Exy Hx.
  destruct (Slip.ReadFrame x) as [[fr|] r] eqn:E; [|reflexivity]. exfalso.
  apply ReadFrame_sound in E as (pre & m1 & m2 & Ex & Efr & _).
  set (A := junk ++ End_ :: body).
  assert (Ex' : x = firstn (length x) A).
  { assert (H1 : firstn (length x) (x ++ y) = x) by apply firstn_length_app.
    rewrite Exy in H1.
    replace (junk ++ End_ :: body ++ End_ :: rest) with (A ++ End_ :: rest) in H1
      by (unfold A; now rewrite <- app_assoc).
    rewrite firstn_app in H1.
    assert (HA : length A = (length junk + length body + 1)%nat)
      by (unfold A; rewrite length_app; simpl; lia).
    replace (length x - length A)%nat with 0%nat in H1 by lia.
    rewrite app_nil_r in H1. now rewrite H1. }
  assert (Hle : (count_occ Z.eq_dec x End_ <= 1)%nat).
  { rewrite Ex'. etransitivity; [apply count_occ_firstn|].
    unfold A. rewrite count_occ_app, count_occ_cons_eq, no_end_count, no_end_count
      by (reflexivity || assumption). lia. }
  assert (Hge : (2 <= count_occ Z.eq_dec x End_)%nat).
  { rewrite Ex, Efr, !count_occ_app, count_occ_cons_eq by reflexivity.
    rewrite !count_occ_app. simpl. destruct (Z.eq_dec End_ End_); [lia|congruence]. }
  lia.
Qed.

(** Splitting a buffer that has grown past a known prefix. *)
Lemma prefix_split (x y A e : list Z) :
  x ++ y = A ++ e -> (length A <= length x)%nat -> x = A ++ skipn (length A) x.
Proof.
  intros Exy Hl.
  rewrite <- (firstn_skipn (length A) x) at 1. f_equal.
  assert (H1 : firstn (length A) (x ++ y) = firstn (length A) x).
  { rewrite firstn_app. replace (length A - length x)%nat with 0%nat by lia.
    apply app_nil_r. }
  rewrite <- H1, Exy. apply firstn_length_app.
Qed.

Lemma readResponse_loop_frame (junk p extra : list Z) :
  no_end junk -> (10 <= length p)%nat ->
  forall reads buffer,
    buffer ++ concat (map fst reads) = junk ++ Slip.Encode p ++ extra ->
    (length buffer < length junk + length (Slip.Encode p))%nat ->
    Flasher.readResponse_loop reads buffer = DecodeResponse p.
Proof.
  intros Hj Hp. set (body := flat_map encode_byte p).
  assert (Hb : no_end body) by apply flat_map_encode_no_end.
  assert (Hne : body <> []) by (apply flat_map_encode_nonempty; intros ->; simpl in Hp; lia).
  assert (Henc : Slip.Encode p = End_ :: body ++ [End_]) by reflexivity.
  assert (Hlenc : length (Slip.Encode p) = (length body + 2)%nat)
    by (rewrite Henc; simpl; rewrite length_app; simpl; lia).
  assert (Hshape : junk ++ Slip.Encode p ++ extra = junk ++ End_ :: body ++ End_ :: extra)
    by (rewrite Henc; simpl; now rewrite <- app_assoc).
  induction reads as [|[chunk err] rest IH]; intros buffer Hbuf Hlen.
  - cbn [map concat] in Hbuf. rewrite app_nil_r in Hbuf.
    rewrite Hbuf, !length_app in Hlen. lia.
  - cbn [Flasher.readResponse_loop]. cbn zeta.
    assert (Eb : (if Nat.ltb 0 (length chunk) then buffer ++ chunk else buffer)
                 = buffer ++ chunk)
      by (destruct chunk; simpl; [rewrite app_nil_r|]; reflexivity).
    rewrite Eb.
    cbn [map concat fst] in Hbuf. rewrite app_assoc in Hbuf.
    destruct (err && Nat.eqb (length chunk) 0) eqn:Ee.
    { apply andb_true_iff in Ee as [_ Hn]. apply Nat.eqb_eq, length_zero_iff_nil in Hn.
      subst chunk. rewrite app_nil_r in *. now apply IH. }
    destruct (Nat.ltb_spec (length (buffer ++ chunk)) (length junk + length (Slip.Encode p)))
      as [Hlt|Hge].
    + assert (Hn : fst (Slip.ReadFrame (buffer ++ chunk)) = None).
      { apply (ReadFrame_prefix_none junk body extra _ (concat (map fst rest)) Hj Hb).
        - rewrite Hbuf. exact Hshape.
        - lia. }
      destruct (Slip.ReadFrame (buffer ++ chunk)) as [[fr|] r]; [discriminate|].
      now apply IH.
    + pose proof (prefix_split _ _ _ _ (eq_trans Hbuf (app_assoc _ _ _)) ltac:(rewrite length_app; lia))
        as Hsplit.
      rewrite Hsplit.
      set (e' := skipn (length (junk ++ Slip.Encode p)) (buffer ++ chunk)).
      pose proof (ReadFrame_complete junk [] body e' Hj (Forall_nil _) Hne Hb) as Hrf.
      change (End_ :: [] ++ body ++ [End_]) with (Slip.Encode p) in Hrf.
      rewrite <- app_assoc, Hrf, Decode_Encode.
      destruct (Nat.leb_spec 10 (length p)); [reflexivity|lia].
Qed.



Lemma send_with_retry_sent (outcome : nat -> bool) (a : nat) (req : Request)
  (st : DriverState) :
  let res := send_with_retry outcome a req st in
  (fst res = true -> exists k, (k < a)%nat /\ sent (snd res) = sent st ++ repeat req (S k)) /\
  (fst res = false -> sent (snd res) = sent st ++ repeat req a).
Proof.
  revert st; induction a as [|a IH]; intros st; cbn zeta.
  - simpl. split; [discriminate|]. intros _. now rewrite app_nil_r.
  - cbn [send_with_retry sendCommand].
    destruct (outcome (calls st)); cbn [fst snd sent].
    + split; [|discriminate]. intros _. exists 0%nat. split; [lia|reflexivity].
    + destruct (IH {| calls := S (calls st); sent := sent st ++ [req] |}) as [IHt IHf].
      cbn [sent] in IHt, IHf. split.
      * intros Ht. destruct (IHt Ht) as (k & Hk & Hs). exists (S k).
        split; [lia|]. rewrite Hs, <- app_assoc. reflexivity.
      * intros Hf. rewrite (IHf Hf), <- app_assoc. reflexivity.
Qed.

(** When the block loop fails on block [s], each earlier block was sent
    (possibly several times) and block [s] was sent three times last. *)
Lemma stream_blocks_failure (outcome : nat -> bool) (cd : list Z) (r seq0 s : nat)
  (st st' : DriverState) :
  stream_blocks outcome cd seq0 r st = (st', Some s) ->
  (seq0 <= s < seq0 + r)%nat /\
  exists earlier, sent st' = sent st ++ earlier ++ repeat (block_request cd s) 3 /\
    Forall (fun q => exists j, (seq0 <= j < s)%nat /\ q = block_request cd j) earlier.
Proof.
  revert seq0 st; induction r as [|r IH]; intros seq0 st H; [discriminate|].
  cbn [stream_blocks] in H.
  destruct (send_with_retry_sent outcome 3 (block_request cd seq0) st) as [Ht Hf].
  destruct (send_with_retry outcome 3 (block_request cd seq0) st) as [ok st1] eqn:E.
  cbn [fst snd] in Ht, Hf. destruct ok.
  - destruct (IH _ _ H) as (Hs & earlier & Hsent & Hall).
    destruct (Ht eq_refl) as (k & _ & Hs1).
    split; [lia|].
    exists (repeat (block_request cd seq0) (S k) ++ earlier). split.
    + rewrite Hsent, Hs1, <- !app_assoc. reflexivity.
    + apply Forall_app. split.
      * apply Forall_forall. intros q Hq. apply repeat_spec in Hq.
        exists seq0. split; [lia|exact Hq].
      * eapply Forall_impl; [|exact Hall]. intros q (j & Hj & ->).
        exists j. split; [lia|reflexivity].
  - injection H as <- <-. split; [lia|].
    exists []. split; [now rewrite (Hf eq_refl)|constructor].
Qed.

Lemma FlashDeflBeginData_read (eraseSize numBlocks blockSize offset : Z) :
  0 <= eraseSize < 2 ^ 32 -> 0 <= numBlocks < 2 ^ 32 ->
  0 <= blockSize < 2 ^ 32 -> 0 <= offset < 2 ^ 32 ->
  let d := Packets.FlashDeflBeginData eraseSize numBlocks blockSize offset in
  length d = 16%nat /\
  uint32_le (slice d 0 4) = eraseSize /\ uint32_le (slice d 4 8) = numBlocks /\
  uint32_le (slice d 8 12) = blockSize /\ uint32_le (slice d 12 16) = offset.
Proof.
  intros He Hn Hb Ho. cbn zeta. split; [reflexivity|].
  change (slice (Packets.FlashDeflBeginData eraseSize numBlocks blockSize offset) 0 4)
    with (put_uint32 eraseSize).
  change (slice (Packets.FlashDeflBeginData eraseSize numBlocks blockSize offset) 4 8)
    with (put_uint32 numBlocks).
  change (slice (Packets.FlashDeflBeginData eraseSize numBlocks blockSize offset) 8 12)
    with (put_uint32 blockSize).
  change (slice (Packets.FlashDeflBeginData eraseSize numBlocks blockSize offset) 12 16)
    with (put_uint32 offset).
  repeat split; apply uint32_le_put; assumption.
Qed.

(** [DecodeResponse] reports "too short" only on fewer than 10 bytes. *)
Lemma DecodeResponse_not_too_short (d : list Z) (n : Z) :
  (10 <= length d)%nat -> DecodeResponse d <> Err (ErrTooShort n).
Proof.
  intros Hd. unfold DecodeResponse.
  destruct (Z.ltb_spec (Z.of_nat (length d)) 10); [lia|].
  destruct (negb _); [discriminate|].
  destruct (_ >? _); [discriminate|].
  destruct (_ >=? 2); [destruct (_ <? 8); [discriminate|destruct (negb _); discriminate]|].
  destruct (_ >? 0); discriminate.
Qed.

(** Every run of [readResponse_loop] ends in a timeout or in
    [DecodeResponse] of the decoding of a frame, of at least 10 bytes,
    that lies in the buffer followed by the bytes read. *)
Lemma readResponse_loop_cases (reads : list (list Z * bool)) (buffer : list Z) :
  readResponse_loop reads buffer = Err ErrTimeout \/
  exists frame pre post,
    buffer ++ concat (map fst reads) = pre ++ frame ++ post /\
    (10 <= length (Slip.Decode frame))%nat /\
    readResponse_loop reads buffer = DecodeResponse (Slip.Decode frame).
Proof.
  revert buffer. induction reads as [|[chunk err] rest IH]; intros buffer.
  - left. reflexivity.
  - cbn [readResponse_loop map concat fst]. cbn zeta.
    assert (Eb : (if Nat.ltb 0 (length chunk) then buffer ++ chunk else buffer)
                 = buffer ++ chunk)
      by (destruct chunk; simpl; [rewrite app_nil_r|]; reflexivity).
    rewrite Eb, app_assoc.
    destruct (err && Nat.eqb (length chunk) 0).
    { apply IH. }
    destruct (Slip.ReadFrame (buffer ++ chunk)) as [[fr|] r] eqn:Ef.
    + apply ReadFrame_sound in Ef as (pre & _ & _ & Ebuf & _).
      destruct (Nat.leb_spec 10 (length (Slip.Decode fr))) as [Hle|Hlt].
      * right. exists fr, pre, (r ++ concat (map fst rest)).
        rewrite Ebuf, <- !app_assoc. auto.
      * destruct (IH r) as [Ht|(fr' & pre' & post' & E' & Hl & Hr)]; [left; exact Ht|].
        right. exists fr', (pre ++ fr ++ pre'), post'.
        rewrite Ebuf, <- !app_assoc, E', <- ?app_assoc. auto.
    + apply IH.
Qed.

(** A first read holding noise free of 0xC0, the SLIP frame of a
    non-empty payload [q] and a tail: a payload of at least 10 bytes is
    decoded, a shorter one is dropped and reading goes on from the tail. *)
Lemma readResponse_loop_first_frame (junk q tail : list Z)
  (rest : list (list Z * bool)) :
  no_end junk -> q <> [] ->
  readResponse_loop ((junk ++ Slip.Encode q ++ tail, false) :: rest) []
    = if Nat.leb 10 (length q) then DecodeResponse q else readResponse_loop rest tail.
Proof.
  intros Hj Hq. set (body := flat_map encode_byte q).
  assert (Hb : no_end body) by apply flat_map_encode_no_end.
  assert (Hne : body <> []) by (apply flat_map_encode_nonempty; exact Hq).
  cbn [readResponse_loop andb]. cbn zeta.
  assert (Hl : Nat.ltb 0 (length (junk ++ Slip.Encode q ++ tail)) = true).
  { apply Nat.ltb_lt. rewrite !length_app. unfold Slip.Encode. simpl. lia. }
  rewrite Hl. cbn [app].
  pose proof (ReadFrame_complete junk [] body tail Hj (Forall_nil _) Hne Hb) as Hrf.
  change (End_ :: [] ++ body ++ [End_]) with (Slip.Encode q) in Hrf.
  rewrite Hrf, Decode_Encode. reflexivity.
Qed.

Section DetectFacts.
Variable E : Type.
Variable tryPort : String.string -> Detect.Result + E.

Lemma list_loop_acc (ports : list String.string) (acc : list Detect.Result) :
  Detect.list_loop E tryPort ports acc = acc ++ Detect.list_loop E tryPort ports [].
Proof.
  revert acc; induction ports as [|p ports IH]; intros acc; simpl.
  - now rewrite app_nil_r.
  - destruct (tryPort p) as [r|e].
    + rewrite IH, (IH [r]), app_assoc. reflexivity.
    + apply IH.
Qed.

Lemma detect_loop_first (ports : list String.string) (le : option E) :
  fst (Detect.detect_loop E tryPort ports le) = hd_error (Detect.list_loop E tryPort ports []).
Proof.
  revert le; induction ports as [|p ports IH]; intros le; simpl; [reflexivity|].
  destruct (tryPort p) as [r|e]; [|apply IH].
  rewrite list_loop_acc. reflexivity.
Qed.

Lemma detect_loop_last (ports : list String.string) (le : option E) :
  ports <> [] -> Detect.list_loop E tryPort ports [] = [] ->
  exists pre p e, ports = pre ++ [p] /\ tryPort p = inr e /\
    snd (Detect.detect_loop E tryPort ports le) = Some e.
Proof.
  revert le; induction ports as [|p ports IH]; intros le Hne Hl; [congruence|].
  simpl in Hl |- *. destruct (tryPort p) as [r|e] eqn:Ep.
  - rewrite list_loop_acc in Hl. discriminate.
  - destruct ports as [|p' ports'].
    + exists [], p, e. split; [reflexivity|]. split; [exact Ep|reflexivity].
    + destruct (IH (Some e) ltac:(discriminate) Hl) as (pre & q & e' & Hp & Hq & Hs).
      exists (p :: pre), q, e'. split; [rewrite Hp; reflexivity|]. split; assumption.
Qed.

End DetectFacts.

End ExtraFacts.

Module Claims.
Import ListFacts GoInt Protocol ProtocolProofs SlipProofs Flasher FlasherProofs SpecDefs
  ExtraFacts.




(** C1: decoding the SLIP encoding of any byte sequence gives it back,
    in particular for [[]], [[0xC0]], [[0xDB]], [[0xC0; 0xDB]],
    [[0xC0; 0xC0; 0xDB; 0xDB]] and 256-byte runs. *)
Theorem slip_roundtrip (b : list Z) : Slip.Decode (Slip.Encode b) = b.
Proof.
  unfold Slip.Encode.
  rewrite (Decode_frame [Slip.End_] (flat_map Slip.encode_byte b) [Slip.End_]).
  - rewrite !length_app. simpl.
    replace (Nat.ltb _ 2) with false by (symmetry; apply Nat.ltb_ge; lia).
    apply unescape_encode.
  - repeat constructor.
  - repeat constructor.
  - apply no_end_hd_last, flat_map_encode_no_end.
Qed.

(** C3: [ReadFrame] returns a frame exactly when the buffer is
    [pre ++ frame ++ rest] where [pre] holds no 0xC0 and [frame] is a
    0xC0, a (possibly empty) run of 0xC0, a non-empty run of non-0xC0
    bytes and a closing 0xC0; it returns that frame and [rest].  Without a
    frame it returns the buffer unchanged.  On the spec's example buffer,
    two extractions give [[C0;1;2;C0]] and [[C0;3;4;C0]] with an empty
    tail. *)
Theorem ReadFrame_spec (data : list Z) :
  (forall fr rest, Slip.ReadFrame data = (Some fr, rest) <->
     exists pre m1 m2, data = pre ++ fr ++ rest /\
       fr = Slip.End_ :: m1 ++ m2 ++ [Slip.End_] /\
       no_end pre /\ all_end m1 /\ m2 <> [] /\ no_end m2) /\
  (forall r, Slip.ReadFrame data = (None, r) -> r = data) /\
  Slip.ReadFrame [192; 1; 2; 192; 192; 3; 4; 192] = (Some [192; 1; 2; 192], [192; 3; 4; 192]) /\
  Slip.ReadFrame [192; 3; 4; 192] = (Some [192; 3; 4; 192], []).
Proof.
  split; [|split; [|split; reflexivity]].
  - intros fr rest. split; [apply ReadFrame_sound|].
    intros (pre & m1 & m2 & -> & -> & Hpre & H1 & H2 & H3).
    now apply ReadFrame_complete.
  - intros r. unfold Slip.ReadFrame.
    destruct (Slip.find_start 0 data) as [start|]; [|congruence].
    destruct (Slip.find_close false start (skipn start data)); congruence.
Qed.

Lemma ReadFrame_spec_witness :
  Slip.ReadFrame [7; 192; 192; 5; 192; 9] = (Some [192; 192; 5; 192], [9]) /\
  exists pre m1 m2, [7; 192; 192; 5; 192; 9] = pre ++ [192; 192; 5; 192] ++ [9] /\
    [192; 192; 5; 192] = Slip.End_ :: m1 ++ m2 ++ [Slip.End_] /\
    no_end pre /\ all_end m1 /\ m2 <> [] /\ no_end m2.
Proof.
  split; [reflexivity|].
  apply (proj1 (ReadFrame_spec [7; 192; 192; 5; 192; 9]) _ _). reflexivity.
Defined.

(** C6: the checksum of a payload is 0xEF XOR-ed with every payload byte
    and fits in a byte (so the 32-bit field is its zero extension);
    the empty payload gives 0xEF, [[0x01]] gives 0xEE and
    [[0x01; 0x02; 0x03]] gives 0xEF. *)
Theorem checksum_spec (data : list Z) (Hbytes : Forall is_byte data) :
  calculateChecksum data = Z.lxor 239 (xor_all data) /\
  0 <= calculateChecksum data < 256 /\
  calculateChecksum [] = 239 /\ calculateChecksum [1] = 238 /\
  calculateChecksum [1; 2; 3] = 239.
Proof.
  split; [apply fold_lxor|].
  split; [apply checksum_byte; exact Hbytes|].
  repeat split; reflexivity.
Qed.

Lemma checksum_spec_witness :
  Forall is_byte [1; 2; 3] /\
  calculateChecksum [1; 2; 3] = Z.lxor 239 (xor_all [1; 2; 3]).
Proof.
  assert (H : Forall is_byte [1; 2; 3])
    by (repeat constructor; unfold is_byte; lia).
  split; [exact H|]. exact (proj1 (checksum_spec [1; 2; 3] H)).
Defined.

(** C7 (amended): the serialized request is [8 + N] bytes: byte 0 is 0x00,
    byte 1 the opcode, bytes 2..4 the little-endian [uint16(N)], i.e.
    [N mod 65536] (equal to [N] for payloads of at most 65535 bytes),
    bytes 4..8 the little-endian checksum, and the rest the payload. *)
Theorem Request_Encode_layout (cmd : Z) (data : list Z)
  (Hbytes : Forall is_byte data) :
  let pkt := Protocol.Encode (NewRequest cmd data) in
  length pkt = (8 + length data)%nat /\
  nth 0 pkt 0 = 0 /\ nth 1 pkt 0 = cmd /\
  uint16_le (slice pkt 2 4) = Z.of_nat (length data) mod 2 ^ 16 /\
  (Z.of_nat (length data) <= 65535 -> uint16_le (slice pkt 2 4) = Z.of_nat (length data)) /\
  uint32_le (slice pkt 4 8) = calculateChecksum data /\
  skipn 8 pkt = data.
Proof.
  cbn zeta.
  destruct (Encode_slices cmd data) as (Hl & H0 & H1 & H16 & H32 & Hd).
  assert (Hu : uint16_le (slice (Protocol.Encode (NewRequest cmd data)) 2 4)
               = Z.of_nat (length data) mod 2 ^ 16).
  { rewrite H16. apply uint16_le_put. unfold to_uint16.
    apply Z.mod_pos_bound. lia. }
  split; [exact Hl|]. split; [exact H0|]. split; [exact H1|].
  split; [exact Hu|]. split.
  - intros Hn. rewrite Hu. apply Z.mod_small. lia.
  - split; [|exact Hd]. rewrite H32. apply uint32_le_put.
    pose proof (checksum_byte data Hbytes) as Hc. unfold is_byte in Hc. lia.
Qed.

Lemma Request_Encode_layout_witness :
  Forall is_byte [1; 2; 3] /\
  length (Protocol.Encode (NewRequest 8 [1; 2; 3])) = 11%nat.
Proof.
  assert (H : Forall is_byte [1; 2; 3])
    by (repeat constructor; unfold is_byte; lia).
  split; [exact H|]. exact (proj1 (Request_Encode_layout 8 [1; 2; 3] H)).
Defined.

(** C7, counterexample: a payload of 65536 bytes is announced with a
    length field of 0, not 65536. *)
Lemma Request_Encode_length_wraps :
  ~ (forall cmd data, Forall is_byte data ->
       uint16_le (slice (Protocol.Encode (NewRequest cmd data)) 2 4)
       = Z.of_nat (length data)).
Proof.
  intros H.
  assert (Gen : forall d, Forall is_byte d -> length d = Z.to_nat 65536 -> False).
  { intros d Hd Hl. specialize (H 17 d Hd).
    destruct (Encode_slices 17 d) as (_ & _ & _ & H16 & _).
    rewrite H16, Hl, Z2Nat.id in H by lia.
    vm_compute in H. discriminate. }
  apply (Gen (repeat 0 (Z.to_nat 65536))); [|apply repeat_length].
  apply Forall_forall. intros x Hx. apply repeat_spec in Hx. subst.
  unfold is_byte. lia.
Qed.

(** C8 (amended): a frame of fewer than 2 bytes decodes to empty; on a
    longer frame [pre ++ body ++ post], where [pre] and [post] are the
    leading and trailing runs of 0xC0, [Decode] is the unescaping walk
    [unescape] of [body] (0xDB 0xDC gives 0xC0, 0xDB 0xDD gives 0xDB,
    0xDB x gives x, each advancing two; any other byte is copied); in
    particular [Decode [C0; DB; FF; 03; C0] = [FF; 03]]. *)
Theorem Decode_spec (pre body post : list Z)
  (Hpre : all_end pre) (Hpost : all_end post)
  (Hbody : body = [] \/ (hd 0 body <> Slip.End_ /\ last body 0 <> Slip.End_)) :
  Slip.Decode (pre ++ body ++ post) =
    (if Nat.ltb (length (pre ++ body ++ post)) 2 then [] else unescape body) /\
  Slip.Decode [192; 219; 255; 3; 192] = [255; 3].
Proof.
  split; [now apply Decode_frame|reflexivity].
Qed.

Lemma Decode_spec_witness :
  all_end [192] /\
  Slip.Decode ([192] ++ [219; 255; 3] ++ [192]) = unescape [219; 255; 3].
Proof.
  assert (Hp : all_end [192]) by (repeat constructor).
  assert (Hb : [219; 255; 3] = [] \/
               (hd 0 [219; 255; 3] <> Slip.End_ /\ last [219; 255; 3] 0 <> Slip.End_)).
  { right. unfold Slip.End_. simpl. split; discriminate. }
  split; [exact Hp|].
  exact (proj1 (Decode_spec [192] [219; 255; 3] [192] Hp Hp Hb)).
Defined.

(** C8, counterexample: the one-byte frame [[0x05]] has no delimiters to
    strip, yet decodes to empty instead of [[0x05]]. *)
Lemma Decode_short_frame : Slip.Decode [5] = [] /\ unescape [5] = [5].
Proof. split; reflexivity. Qed.

(** C9 (amended): an encoded frame holds 0xC0 only as its first and last
    byte; for a non-empty payload, [ReadFrame] on the encoded frame
    followed by any bytes returns exactly that frame and those bytes. *)
Theorem Encode_frame_extracted (b rest : list Z) :
  (exists mid, Slip.Encode b = Slip.End_ :: mid ++ [Slip.End_] /\ no_end mid) /\
  (b <> [] -> Slip.ReadFrame (Slip.Encode b ++ rest) = (Some (Slip.Encode b), rest)).
Proof.
  split.
  - exists (flat_map Slip.encode_byte b). split; [reflexivity|].
    apply flat_map_encode_no_end.
  - intros Hb.
    assert (Hne : flat_map Slip.encode_byte b <> []).
    { destruct b as [|x b]; [congruence|]. cbn [flat_map].
      unfold Slip.encode_byte.
      destruct (x =? Slip.End_); [|destruct (x =? Slip.Esc)]; discriminate. }
    pose proof (ReadFrame_complete [] [] (flat_map Slip.encode_byte b) rest
                  (Forall_nil _) (Forall_nil _) Hne (flat_map_encode_no_end b)) as H.
    exact H.
Qed.

Lemma Encode_frame_extracted_witness :
  [1] <> [] /\ Slip.ReadFrame (Slip.Encode [1] ++ [7]) = (Some (Slip.Encode [1]), [7]).
Proof.
  assert (H : [1] <> @nil Z) by discriminate.
  split; [exact H|]. exact (proj2 (Encode_frame_extracted [1] [7]) H).
Defined.

(** C9, counterexample: the frame of the empty payload, [[0xC0; 0xC0]], is
    not extracted by [ReadFrame]: two contiguous delimiters never close a
    frame. *)
Lemma Encode_empty_not_extracted :
  Slip.Encode [] = [192; 192] /\ Slip.ReadFrame (Slip.Encode []) = (None, [192; 192]).
Proof. split; reflexivity. Qed.

(** C10 (amended): for every length [n] with [0 <= n <= 2^63 - 4096]
    (so that [dataLen + FlashSectorSize - 1] does not overflow a 64-bit
    [int]) the two [CalculateEraseSize] functions agree; both return
    [uint32(ceil(n / 4096) * 4096)]. *)
Theorem CalculateEraseSize_agree (n : Z) (Hn : 0 <= n <= 2 ^ 63 - 4096) :
  CalculateEraseSize n = CalculateEraseSize_esp32c3 n /\
  CalculateEraseSize n = to_uint32 ((n + 4095) / 4096 * 4096).
Proof.
  unfold CalculateEraseSize, CalculateEraseSize_esp32c3, FlashSectorSize.
  assert (Ha : wrap64 (wrap64 (n + 4096) - 1) = n + 4095).
  { unfold Z.sub. rewrite wrap64_add. rewrite wrap64_small; lia. }
  rewrite Ha, Z.quot_div_nonneg, Z.quot_div_nonneg, Z.rem_mod_nonneg by lia.
  rewrite !to_uint32_wrap64.
  assert (Hs : wrap64 (n / 4096 + 1) = n / 4096 + 1).
  { apply wrap64_small. split.
    - pose proof (Z.div_pos n 4096 ltac:(lia) ltac:(lia)). lia.
    - assert (n / 4096 < 2 ^ 52) by (apply Z.div_lt_upper_bound; lia). lia. }
  rewrite <- (ceil_div_4096 n) by lia.
  destruct (negb (n mod 4096 =? 0)); [rewrite Hs|rewrite Z.add_0_r]; split; reflexivity.
Qed.

Lemma CalculateEraseSize_agree_witness :
  0 <= 5000 <= 2 ^ 63 - 4096 /\
  CalculateEraseSize 5000 = CalculateEraseSize_esp32c3 5000.
Proof.
  assert (H : 0 <= 5000 <= 2 ^ 63 - 4096) by lia.
  split; [exact H|]. exact (proj1 (CalculateEraseSize_agree 5000 H)).
Defined.

(** C10, counterexample: on the largest [int], [2^63 - 1], the additions
    and products of the two functions overflow differently: packet.go
    returns 4096 and esp32c3.go returns 0. *)
Lemma CalculateEraseSize_disagree :
  CalculateEraseSize (2 ^ 63 - 1) = 4096 /\
  CalculateEraseSize_esp32c3 (2 ^ 63 - 1) = 0.
Proof. split; vm_compute; reflexivity. Qed.

(** C4 (amended): when every [sendCommand] call succeeds and the
    compressed stream has length [L] with [0 < L <= (2^32 - 1) * 1024],
    the FLASH_DEFL_DATA phase sends exactly [ceil(L / 1024)] requests, the
    [s]-th with opcode 0x11 and payload: little-endian uint32 words
    [length block], [s], [0], [0], then the block, which is the [s]-th
    1024-byte slice of the stream, of length [min 1024 (L - 1024 s)]
    (no padding). *)
Theorem defl_data_phase_spec (cd : list Z) (HL : (0 < length cd)%nat)
  (Hbound : Z.of_nat (length cd) <= (2 ^ 32 - 1) * 1024) :
  let n := ((length cd + 1023) / 1024)%nat in
  let blk s := firstn 1024 (skipn (1024 * s) cd) in
  let r := defl_data_phase all_ok cd init_state in
  snd r = None /\ length (sent (fst r)) = n /\
  forall s, (s < n)%nat -> exists p, nth_error (sent (fst r)) s = Some p /\
    Command p = CmdFlashDeflData /\
    uint32_le (slice (Data p) 0 4) = Z.of_nat (length (blk s)) /\
    uint32_le (slice (Data p) 4 8) = Z.of_nat s /\
    uint32_le (slice (Data p) 8 12) = 0 /\
    uint32_le (slice (Data p) 12 16) = 0 /\
    skipn 16 (Data p) = blk s /\
    length (Data p) = (16 + length (blk s))%nat /\
    length (blk s) = Nat.min 1024 (length cd - 1024 * s).
Proof.
  cbn zeta. unfold defl_data_phase.
  rewrite CalculateDeflBlocks_small, Nat2Z.id by exact Hbound.
  rewrite stream_blocks_all_ok. cbn [fst snd sent init_state app].
  set (n := ((length cd + 1023) / 1024)%nat).
  assert (Hn : (Z.of_nat n < 2 ^ 32)).
  { unfold n. rewrite Nat2Z.inj_div, Nat2Z.inj_add.
    apply Z.div_lt_upper_bound; lia. }
  split; [reflexivity|]. split; [apply length_map_seq|].
  intros s Hs.
  exists (block_request cd s). split.
  { rewrite nth_error_map, nth_error_seq.
    destruct (Nat.ltb_spec s n); [reflexivity|lia]. }
  assert (Hlen : length (firstn 1024 (skipn (1024 * s) cd))
                 = Nat.min 1024 (length cd - 1024 * s))
    by (rewrite length_firstn, length_skipn; reflexivity).
  unfold block_request, NewRequest. cbn [Command Data].
  rewrite block_of_slice.
  destruct (FlashDeflDataData_fields (firstn 1024 (skipn (1024 * s) cd))
              (to_uint32 (Z.of_nat s))) as (F0 & F1 & F2 & F3 & F4 & F5).
  rewrite F0, F1, F2, F3, F4, F5.
  assert (Hb : Z.of_nat (length (firstn 1024 (skipn (1024 * s) cd))) <= 1024).
  { rewrite Hlen. lia. }
  split; [reflexivity|].
  split; [rewrite uint32_le_put; unfold to_uint32; rewrite Z.mod_small; lia|].
  split; [rewrite uint32_le_put; unfold to_uint32; rewrite Z.mod_small; lia|].
  split; [rewrite uint32_le_put; lia|].
  split; [rewrite uint32_le_put; lia|].
  repeat split; auto.
Qed.

Lemma defl_data_phase_spec_witness :
  (0 < length [1; 2; 3])%nat /\ Z.of_nat (length [1; 2; 3]) <= (2 ^ 32 - 1) * 1024 /\
  snd (defl_data_phase all_ok [1; 2; 3] init_state) = None.
Proof.
  assert (H1 : (0 < length [1; 2; 3])%nat) by (simpl; lia).
  assert (H2 : Z.of_nat (length [1; 2; 3]) <= (2 ^ 32 - 1) * 1024) by (simpl; lia).
  split; [exact H1|]. split; [exact H2|].
  exact (proj1 (defl_data_phase_spec [1; 2; 3] H1 H2)).
Defined.

(** C4, counterexample: the block count is a [uint32].  A stream of
    [L = 2^42] bytes has [ceil(L / 1024) = 2^32] blocks, but
    [CalculateDeflBlocks] wraps it to 0: with every command succeeding,
    the phase sends no FLASH_DEFL_DATA packet and reports success. *)
Lemma defl_data_blocks_wrap :
  let cd := repeat 0 (Z.to_nat (2 ^ 42)) in
  Z.of_nat (length cd) = 2 ^ 42 /\
  (Z.of_nat (length cd) + 1023) / 1024 = 2 ^ 32 /\
  sent (fst (defl_data_phase all_ok cd init_state)) = [] /\
  snd (defl_data_phase all_ok cd init_state) = None.
Proof.
  intros cd.
  assert (Hl : Z.of_nat (length cd) = 2 ^ 42).
  { unfold cd. rewrite repeat_length, Z2Nat.id; [reflexivity|lia]. }
  unfold defl_data_phase. rewrite Hl.
  replace (CalculateDeflBlocks (2 ^ 42) FlashBlockSize) with 0
    by (vm_compute; reflexivity).
  split; [reflexivity|]. split; [vm_compute; reflexivity|]. split; reflexivity.
Qed.

(** C5 (amended): [readResponse] never returns the too-short error:
    it returns a timeout, or [DecodeResponse] of the decoding, of at
    least 10 bytes, of a frame found in the bytes read, so a
    wrong-direction or size-mismatch error reaches the caller.  When
    the first read holds noise free of 0xC0 followed by the SLIP frame
    of a payload [q], a [q] of at least 10 bytes is decoded, and a
    shorter one is dropped and reading goes on with the rest of the
    buffer. *)
Theorem readResponse_spec (reads : list (list Z * bool)) :
  (forall n, readResponse reads <> Err (ErrTooShort n)) /\
  (readResponse reads = Err ErrTimeout \/
   exists frame pre post,
     concat (map fst reads) = pre ++ frame ++ post /\
     (10 <= length (Slip.Decode frame))%nat /\
     readResponse reads = DecodeResponse (Slip.Decode frame)) /\
  (forall junk q tail rest, no_end junk -> q <> [] ->
     reads = (junk ++ Slip.Encode q ++ tail, false) :: rest ->
     ((10 <= length q)%nat -> readResponse reads = DecodeResponse q) /\
     ((length q < 10)%nat -> readResponse reads = readResponse_loop rest tail)).
Proof.
  unfold readResponse.
  pose proof (readResponse_loop_cases reads []) as Hc.
  split; [|split; [exact Hc|]].
  - intros n. destruct Hc as [-> | (fr & _ & _ & _ & Hl & ->)].
    + discriminate.
    + apply DecodeResponse_not_too_short. exact Hl.
  - intros junk q tail rest Hj Hq ->.
    rewrite readResponse_loop_first_frame by assumption.
    split; intros H; destruct (Nat.leb_spec 10 (length q)); auto; lia.
Qed.

Lemma readResponse_spec_witness :
  no_end [7] /\ [1; 2; 3] <> [] /\
  readResponse [([7] ++ Slip.Encode [1; 2; 3] ++ [], false);
                ([192; 0; 8; 2; 0; 0; 0; 0; 0; 0; 0; 192], false)]
    = Err (ErrDirection 0).
Proof.
  assert (Hj : no_end [7]) by (constructor; [unfold Slip.End_; lia|constructor]).
  assert (Hq : [1; 2; 3] <> []) by discriminate.
  split; [exact Hj|]. split; [exact Hq|].
  rewrite (proj2 (proj2 (proj2 (readResponse_spec
    [([7] ++ Slip.Encode [1; 2; 3] ++ [], false);
     ([192; 0; 8; 2; 0; 0; 0; 0; 0; 0; 0; 192], false)]))
    [7] [1; 2; 3] [] _ Hj Hq eq_refl)) by (simpl; lia).
  vm_compute. reflexivity.
Defined.

(** C5, counterexample: a frame decoding to 3 bytes is a too-short
    response for [DecodeResponse], yet [readResponse] does not fail on
    it: it skips it and returns the next valid response, or a timeout
    when none follows. *)
Lemma readResponse_skips_short_frame :
  DecodeResponse (Slip.Decode [192; 1; 2; 3; 192]) = Err (ErrTooShort 3) /\
  is_err (readResponse [([192; 1; 2; 3; 192], false);
                        ([192; 1; 8; 2; 0; 0; 0; 0; 0; 0; 0; 192], false)]) = false /\
  readResponse [([192; 1; 2; 3; 192], false)] = Err ErrTimeout.
Proof. vm_compute. repeat split. Qed.

End Claims.

(** * Further properties of the code *)


(** ** Properties of the code beyond the specification's claims *)
Module Extras.
Import ListFacts GoInt Protocol ProtocolProofs SlipProofs Flasher FlasherProofs
  SpecDefs Packets Esp32c3 Session Detect ExtraFacts ExtraDefs.

(** [Slip.Encode] adds the two delimiters and one escape byte for each
    0xC0 or 0xDB of the payload. *)
Theorem Encode_length (b : list Z) :
  length (Slip.Encode b) =
    (2 + length b + length (filter (fun x => ((x =? Slip.End_) || (x =? Slip.Esc))%Z) b))%nat.
Proof.
  unfold Slip.Encode. rewrite !length_app, flat_map_encode_length. simpl. lia.
Qed.

(** [Slip.Decode] never returns more bytes than the frame it is given. *)
Theorem Decode_length (frame : list Z) :
  (length (Slip.Decode frame) <= length frame)%nat.
Proof.
  unfold Slip.Decode. destruct (Nat.ltb _ 2); [simpl; lia|].
  cbn zeta. destruct (Nat.leb _ _); [simpl; lia|].
  rewrite decode_loop_unescape by lia. cbn [app skipn].
  etransitivity; [apply unescape_length|].
  unfold slice. rewrite length_firstn, length_skipn. lia.
Qed.

(** An encoded request is never accepted as a response: [DecodeResponse]
    reports it too short (payload under 2 bytes) or with the wrong
    direction byte 0x00. *)
Theorem DecodeResponse_rejects_request (cmd : Z) (data : list Z) :
  DecodeResponse (Protocol.Encode (NewRequest cmd data)) =
    if (length data <? 2)%nat then Err (ErrTooShort (8 + Z.of_nat (length data)))
    else Err (ErrDirection DirRequest).
Proof.
  pose proof (Encode_slices cmd data) as H. cbn zeta in H.
  destruct H as (Hl & H0 & _).
  unfold DecodeResponse. rewrite Hl, H0. cbn zeta.
  destruct (Nat.ltb_spec (length data) 2) as [H|H].
  - destruct (Z.ltb_spec (Z.of_nat (8 + length data)) 10) as [_|H']; [|lia].
    f_equal. f_equal. lia.
  - destruct (Z.ltb_spec (Z.of_nat (8 + length data)) 10) as [H'|_]; [lia|].
    reflexivity.
Qed.

(** A response packet laid out as the bootloader sends it (direction
    0x01, command, little-endian payload length, value, payload, status,
    error) decodes to exactly these fields, whatever bytes follow it, as
    long as the declared length is at most 65528, so that the [uint16]
    indices [8+dataSize-2] and [8+dataSize-1] do not wrap. *)
Theorem DecodeResponse_roundtrip (cmd v st er : Z) (payload extra : list Z)
  (Hv : 0 <= v < 2 ^ 32) (Hn : Z.of_nat (length payload) + 2 <= 65528) :
  DecodeResponse ([DirResponse; cmd] ++ put_uint16 (Z.of_nat (length payload + 2))
                  ++ put_uint32 v ++ payload ++ [st; er] ++ extra) =
    Ok {| RCommand := cmd; RData := payload; Value := v; Status := st; Error := er |}.
Proof.
  set (n := length payload) in *.
  set (N := Z.of_nat (n + 2)).
  assert (Hds : uint16_le (put_uint16 N) = N) by (apply uint16_le_put; unfold N; lia).
  assert (Hv' : uint32_le (put_uint32 v) = v) by (apply uint32_le_put; lia).
  set (data := [DirResponse; cmd] ++ put_uint16 N ++ put_uint32 v ++ payload ++ [st; er] ++ extra).
  assert (Hlen : length data = (10 + n + length extra)%nat)
    by (unfold data; rewrite !length_app; simpl; unfold n; lia).
  assert (E0 : nth 0 data 0 = DirResponse) by reflexivity.
  assert (E1 : nth 1 data 0 = cmd) by reflexivity.
  assert (E2 : slice data 2 4 = put_uint16 N) by reflexivity.
  assert (E4 : slice data 4 8 = put_uint32 v) by reflexivity.
  assert (E8 : skipn 8 data = payload ++ st :: er :: extra) by reflexivity.
  pose proof (DecodeResponse_ok_small data) as Hok. cbn zeta in Hok.
  rewrite E2, Hds, E4, Hv', E1, Hlen in Hok.
  rewrite Hok by (exact E0 || unfold N; lia).
  replace (Z.to_nat N) with (n + 2)%nat by (unfold N; lia).
  f_equal. f_equal.
  - unfold slice. rewrite E8. replace (8 + (n + 2) - 2 - 8)%nat with n by lia.
    apply firstn_length_app.
  - replace (8 + (n + 2) - 2)%nat with (8 + n)%nat by lia.
    rewrite <- nth_skipn, E8, app_nth2 by lia.
    replace (n - length payload)%nat with 0%nat by (unfold n; lia). reflexivity.
  - replace (8 + (n + 2) - 1)%nat with (8 + (n + 1))%nat by lia.
    rewrite <- nth_skipn, E8, app_nth2 by lia.
    replace (n + 1 - length payload)%nat with 1%nat by (unfold n; lia). reflexivity.
Qed.

Lemma DecodeResponse_roundtrip_witness :
  (0 <= 7 < 2 ^ 32 /\ Z.of_nat (length [5; 6]) + 2 <= 65528) /\
  DecodeResponse ([DirResponse; 8] ++ put_uint16 (Z.of_nat (length [5; 6] + 2))
                  ++ put_uint32 7 ++ [5; 6] ++ [0; 1] ++ [9]) =
    Ok {| RCommand := 8; RData := [5; 6]; Value := 7; Status := 0; Error := 1 |}.
Proof.
  split; [split; [lia|simpl; lia]|].
  apply (DecodeResponse_roundtrip 8 7 0 1 [5; 6] [9]); [lia|simpl; lia].
Defined.

(** [SpiSetParamsData(totalSize)] is 24 bytes holding, as little-endian
    words, 0, [totalSize], the 64 KiB block size, the 4 KiB sector size,
    the 256-byte page size and the status mask 0xFFFF. *)
Theorem SpiSetParamsData_fields (totalSize : Z) (H : 0 <= totalSize < 2 ^ 32) :
  let d := SpiSetParamsData totalSize in
  length d = 24%nat /\
  uint32_le (slice d 0 4) = 0 /\ uint32_le (slice d 4 8) = totalSize /\
  uint32_le (slice d 8 12) = 65536 /\ uint32_le (slice d 12 16) = 4096 /\
  uint32_le (slice d 16 20) = 256 /\ uint32_le (slice d 20 24) = 65535.
Proof.
  cbn zeta. split; [reflexivity|].
  split; [reflexivity|]. split.
  { change (slice (SpiSetParamsData totalSize) 4 8) with (put_uint32 totalSize).
    now apply uint32_le_put. }
  repeat split; reflexivity.
Qed.

Lemma SpiSetParamsData_fields_witness :
  0 <= 16777216 < 2 ^ 32 /\
  (let d := SpiSetParamsData 16777216 in
   length d = 24%nat /\
   uint32_le (slice d 0 4) = 0 /\ uint32_le (slice d 4 8) = 16777216 /\
   uint32_le (slice d 8 12) = 65536 /\ uint32_le (slice d 12 16) = 4096 /\
   uint32_le (slice d 16 20) = 256 /\ uint32_le (slice d 20 24) = 65535).
Proof.
  split; [lia|]. apply (SpiSetParamsData_fields 16777216). lia.
Defined.

(** [FlashDeflBeginData] is 16 bytes from which the four 32-bit
    arguments read back in order as little-endian words. *)
Theorem FlashDeflBeginData_fields (eraseSize numBlocks blockSize offset : Z)
  (He : 0 <= eraseSize < 2 ^ 32) (Hn : 0 <= numBlocks < 2 ^ 32)
  (Hb : 0 <= blockSize < 2 ^ 32) (Ho : 0 <= offset < 2 ^ 32) :
  let d := FlashDeflBeginData eraseSize numBlocks blockSize offset in
  length d = 16%nat /\
  uint32_le (slice d 0 4) = eraseSize /\ uint32_le (slice d 4 8) = numBlocks /\
  uint32_le (slice d 8 12) = blockSize /\ uint32_le (slice d 12 16) = offset.
Proof.
  cbn zeta. split; [reflexivity|].
  change (slice (FlashDeflBeginData eraseSize numBlocks blockSize offset) 0 4)
    with (put_uint32 eraseSize).
  change (slice (FlashDeflBeginData eraseSize numBlocks blockSize offset) 4 8)
    with (put_uint32 numBlocks).
  change (slice (FlashDeflBeginData eraseSize numBlocks blockSize offset) 8 12)
    with (put_uint32 blockSize).
  change (slice (FlashDeflBeginData eraseSize numBlocks blockSize offset) 12 16)
    with (put_uint32 offset).
  repeat split; apply uint32_le_put; assumption.
Qed.

Lemma FlashDeflBeginData_fields_witness :
  (0 <= 8192 < 2 ^ 32 /\ 0 <= 3 < 2 ^ 32 /\ 0 <= 1024 < 2 ^ 32 /\ 0 <= 65536 < 2 ^ 32) /\
  (let d := FlashDeflBeginData 8192 3 1024 65536 in
   length d = 16%nat /\
   uint32_le (slice d 0 4) = 8192 /\ uint32_le (slice d 4 8) = 3 /\
   uint32_le (slice d 8 12) = 1024 /\ uint32_le (slice d 12 16) = 65536).
Proof.
  split; [repeat split; lia|]. apply (FlashDeflBeginData_fields 8192 3 1024 65536); lia.
Defined.

(** The two [ParseSecurityInfo] of the protocol package differ: both read
    the chip id as the little-endian word of bytes 0..3, but packet.go's
    rejects inputs under 4 bytes and esp32c3.go's inputs under 12 bytes,
    so on 4 to 11 bytes only the first succeeds.  esp32c3.go's leaves the
    revision, features and MAC zero. *)
Theorem ParseSecurityInfo_versions (data : list Z) :
  let len := Z.of_nat (length data) in
  let chip := uint32_le (slice data 0 4) in
  ((length data < 4)%nat ->
     Packets.ParseSecurityInfo data = SecTooShort len /\
     Esp32c3.ParseSecurityInfo data = SecTooShort len) /\
  ((4 <= length data < 12)%nat ->
     Packets.ParseSecurityInfo data = SecOk {| ChipID := chip |} /\
     Esp32c3.ParseSecurityInfo data = SecTooShort len) /\
  ((12 <= length data)%nat ->
     Packets.ParseSecurityInfo data = SecOk {| ChipID := chip |} /\
     Esp32c3.ParseSecurityInfo data =
       SecOk {| CChipID := chip; Revision := 0; Features := 0; MAC := repeat 0 6 |}).
Proof.
  cbn zeta. unfold Packets.ParseSecurityInfo, Esp32c3.ParseSecurityInfo. cbn zeta.
  destruct (Z.ltb_spec (Z.of_nat (length data)) 4) as [H4|H4];
    destruct (Z.ltb_spec (Z.of_nat (length data)) 12) as [H12|H12];
    repeat split; intros; try reflexivity; lia.
Qed.

(** [ReadMACFromEfuse] always gives 6 bytes: the first 6 bytes of its
    input, or all zeros when the input is shorter than 6 bytes. *)
Theorem ReadMACFromEfuse_spec (data : list Z) :
  length (ReadMACFromEfuse data) = 6%nat /\
  ((6 <= length data)%nat -> ReadMACFromEfuse data = firstn 6 data) /\
  ((length data < 6)%nat -> ReadMACFromEfuse data = repeat 0 6).
Proof.
  unfold ReadMACFromEfuse, go_copy, slice. cbn zeta.
  destruct (Nat.leb_spec 6 (length data)) as [H|H].
  - rewrite repeat_length. cbn [Nat.sub].
    rewrite firstn_firstn, skipn_O, length_firstn.
    replace (Init.Nat.min 6 (length data)) with 6%nat by lia.
    replace (Init.Nat.min 6 6) with 6%nat by reflexivity.
    cbn [skipn]. rewrite app_nil_r.
    split; [rewrite length_firstn; lia|]. split; [reflexivity|lia].
  - split; [apply repeat_length|]. split; [lia|reflexivity].
Qed.

(** esp32c3.go's [CalculateFlashBlocks] is [ceil(size / 1024)] for every
    non-negative [int], and agrees with packet.go's
    [CalculateDeflBlocks(size, FlashBlockSize)] wherever the latter's
    [size + blockSize - 1] does not overflow. *)
Theorem CalculateFlashBlocks_ceil (n : Z) (Hn : 0 <= n < 2 ^ 63) :
  CalculateFlashBlocks n = to_uint32 ((n + 1023) / 1024) /\
  (n <= 2 ^ 63 - 1024 -> CalculateFlashBlocks n = CalculateDeflBlocks n FlashBlockSize).
Proof.
  assert (Hc : CalculateFlashBlocks n = to_uint32 ((n + 1023) / 1024)).
  { unfold CalculateFlashBlocks, FlashBlockSize. cbn zeta.
    rewrite Z.quot_div_nonneg, Z.rem_mod_nonneg by lia.
    assert (Hs : wrap64 (n / 1024 + 1) = n / 1024 + 1).
    { apply wrap64_small. split.
      - pose proof (Z.div_pos n 1024 ltac:(lia) ltac:(lia)). lia.
      - assert (n / 1024 < 2 ^ 54) by (apply Z.div_lt_upper_bound; lia). lia. }
    pose proof (ceil_div 1024 n ltac:(lia) ltac:(lia)) as Hcd.
    replace (1024 - 1) with 1023 in Hcd by lia. rewrite <- Hcd.
    destruct (negb (n mod 1024 =? 0)); [rewrite Hs|rewrite Z.add_0_r]; reflexivity. }
  split; [exact Hc|]. intros Hm.
  rewrite Hc, CalculateDeflBlocks_ceil by lia. reflexivity.
Qed.

Lemma CalculateFlashBlocks_ceil_witness :
  0 <= 1025 < 2 ^ 63 /\
  CalculateFlashBlocks 1025 = to_uint32 ((1025 + 1023) / 1024) /\
  (1025 <= 2 ^ 63 - 1024 -> CalculateFlashBlocks 1025 = CalculateDeflBlocks 1025 FlashBlockSize).
Proof.
  split; [lia|]. apply (CalculateFlashBlocks_ceil 1025). lia.
Defined.

(** packet.go's [CalculateEraseSize] covers the image with whole 4 KiB
    sectors and less than one spare sector while the result fits 32 bits;
    for lengths within 4 KiB of 4 GiB the rounded size 2^32 wraps to 0. *)
Theorem CalculateEraseSize_covers (n : Z) (Hn : 0 <= n <= 2 ^ 32) :
  let e := CalculateEraseSize n in
  (n <= 2 ^ 32 - 4096 -> n <= e < n + 4096 /\ e mod 4096 = 0) /\
  (2 ^ 32 - 4096 < n -> e = 0).
Proof.
  cbn zeta. rewrite CalculateEraseSize_ceil by lia.
  pose proof (Z.div_mod (n + 4095) 4096 ltac:(lia)) as Hd.
  pose proof (Z.mod_pos_bound (n + 4095) 4096 ltac:(lia)) as Hr.
  unfold to_uint32. split.
  - intros Hs. rewrite Z.mod_small by lia. rewrite Z.mod_mul by lia. lia.
  - intros Hb. rewrite <- (Z.div_unique (n + 4095) 4096 (2 ^ 20) (n + 4095 - 2 ^ 32))
      by lia. reflexivity.
Qed.

Lemma CalculateEraseSize_covers_witness :
  0 <= 5000 <= 2 ^ 32 /\
  (let e := CalculateEraseSize 5000 in
   (5000 <= 2 ^ 32 - 4096 -> 5000 <= e < 5000 + 4096 /\ e mod 4096 = 0) /\
   (2 ^ 32 - 4096 < 5000 -> e = 0)).
Proof.
  split; [lia|]. apply (CalculateEraseSize_covers 5000). lia.
Defined.

(** [readResponse] reassembles a response whatever way the port splits
    it into reads: if the bytes read are noise free of 0xC0, the SLIP
    frame of a packet of at least 10 bytes, and anything after, the
    result is [DecodeResponse] of that packet. *)
Theorem readResponse_reassembles (reads : list (list Z * bool)) (junk p extra : list Z)
  (Hjunk : no_end junk) (Hp : (10 <= length p)%nat)
  (Hreads : concat (map fst reads) = junk ++ Slip.Encode p ++ extra) :
  readResponse reads = DecodeResponse p.
Proof.
  apply (readResponse_loop_frame junk p extra Hjunk Hp reads []); [exact Hreads|].
  unfold Slip.Encode. rewrite !length_app. simpl. lia.
Qed.

Lemma readResponse_reassembles_witness :
  (no_end [7] /\ (10 <= length [1; 8; 2; 0; 0; 0; 0; 0; 0; 0])%nat /\
   concat (map fst [([7; 192; 1; 8], false); ([], true);
                    ([2; 0; 0; 0; 0; 0; 0; 0; 192; 5], false)])
     = [7] ++ Slip.Encode [1; 8; 2; 0; 0; 0; 0; 0; 0; 0] ++ [5]) /\
  readResponse [([7; 192; 1; 8], false); ([], true);
                ([2; 0; 0; 0; 0; 0; 0; 0; 192; 5], false)]
    = DecodeResponse [1; 8; 2; 0; 0; 0; 0; 0; 0; 0].
Proof.
  assert (Hj : no_end [7]) by (constructor; [unfold Slip.End_; lia|constructor]).
  split; [split; [exact Hj|split; [simpl; lia|reflexivity]]|].
  apply (readResponse_reassembles _ [7] [1; 8; 2; 0; 0; 0; 0; 0; 0; 0] [5] Hj);
    [simpl; lia|reflexivity].
Defined.


(** [Connect] resets, syncs, then sends SPI_ATTACH (8 zero bytes) and
    SPI_SET_PARAMS declaring a 16 MiB flash, stopping at the first
    failing step; it succeeds exactly when all four steps do, and a sync
    that panics (in an attempt or in the drain) surfaces as a panic
    before any command is sent. *)
Theorem Connect_spec (reset_ok : bool) (io : nat -> bool * list (list Z * bool))
  (dio : nat -> list (list Z * bool)) (outcome : nat -> bool) :
  let res := Connect reset_ok io dio outcome init_state in
  (snd res = None <->
     reset_ok = true /\ snd (sync io dio) = Some true /\
     outcome 0%nat = true /\ outcome 1%nat = true) /\
  (snd res = Some SyncPanicked <-> reset_ok = true /\ snd (sync io dio) = None) /\
  sent (fst res) =
    (match reset_ok, snd (sync io dio) with
     | true, Some true =>
         if outcome 0%nat then [spiAttach_request; spiSetParams_request (16 * 1024 * 1024)]
         else [spiAttach_request]
     | _, _ => []
     end) /\
  Data spiAttach_request = repeat 0 8 /\
  Command (spiSetParams_request (16 * 1024 * 1024)) = CmdSpiSetParams /\
  uint32_le (slice (Data (spiSetParams_request (16 * 1024 * 1024))) 4 8) = 16 * 1024 * 1024.
Proof.
  cbn zeta. unfold Connect, sendCommand, init_state. cbn [calls sent].
  destruct reset_ok, (snd (sync io dio)) as [[|]|], (outcome 0%nat), (outcome 1%nat);
    cbn [negb andb fst snd sent app];
  (split; [split; [intros H; try discriminate; repeat split; reflexivity
                  | intros (H1 & H2 & H3 & H4); try discriminate; reflexivity]
          | split; [split; [intros H; try discriminate; split; reflexivity
                           | intros (H1 & H2); try discriminate; reflexivity]
                   | split; [reflexivity | split; [reflexivity | split; reflexivity]]]]).
Qed.

(** When every command succeeds and the compressed stream has at most
    (2^32 - 1) * 1024 bytes, [FlashImageCompressed] succeeds: it sends
    FLASH_DEFL_BEGIN declaring the erase size [CalculateEraseSize(len(data))],
    [ceil(L / 1024)] blocks of 1024 bytes and the target address, then the
    [ceil(L / 1024)] FLASH_DEFL_DATA blocks in order, and finally writes
    the FLASH_DEFL_END frame with the "no reboot" word 1. *)
Theorem FlashImageCompressed_all_ok (dataLen : nat) (cd : list Z) (address : Z)
  (HL : Z.of_nat (length cd) <= (2 ^ 32 - 1) * 1024) (Ha : 0 <= address < 2 ^ 32) :
  let n := ((length cd + 1023) / 1024)%nat in
  let res := FlashImageCompressed all_ok dataLen cd address init_state in
  let d := Data (defl_begin_request dataLen cd address) in
  snd res = None /\
  sent (fst (fst res)) =
    defl_begin_request dataLen cd address :: map (block_request cd) (List.seq 0 n) /\
  snd (fst res) = [Slip.Encode (Protocol.Encode defl_end_request)] /\
  Command (defl_begin_request dataLen cd address) = CmdFlashDeflBegin /\
  uint32_le (slice d 0 4) = CalculateEraseSize (Z.of_nat dataLen) /\
  uint32_le (slice d 4 8) = Z.of_nat n /\
  uint32_le (slice d 8 12) = FlashBlockSize /\
  uint32_le (slice d 12 16) = address /\
  Data defl_end_request = [1; 0; 0; 0].
Proof.
  cbn zeta.
  assert (Hb : CalculateDeflBlocks (Z.of_nat (length cd)) FlashBlockSize
               = Z.of_nat ((length cd + 1023) / 1024)) by (apply CalculateDeflBlocks_small; exact HL).
  assert (Hnb : 0 <= Z.of_nat ((length cd + 1023) / 1024) < 2 ^ 32).
  { rewrite <- Hb. unfold CalculateDeflBlocks, to_uint32. apply Z.mod_pos_bound. lia. }
  assert (Heb : 0 <= CalculateEraseSize (Z.of_nat dataLen) < 2 ^ 32).
  { unfold CalculateEraseSize, to_uint32. apply Z.mod_pos_bound. lia. }
  pose proof (FlashDeflBeginData_read (CalculateEraseSize (Z.of_nat dataLen))
    (Z.of_nat ((length cd + 1023) / 1024)) (to_uint32 FlashBlockSize) address
    Heb Hnb ltac:(cbv; split; congruence) Ha) as Hr.
  cbn zeta in Hr. destruct Hr as (_ & H0 & H4 & H8 & H12).
  assert (Ed : Data (defl_begin_request dataLen cd address) =
     Packets.FlashDeflBeginData (CalculateEraseSize (Z.of_nat dataLen))
       (Z.of_nat ((length cd + 1023) / 1024)) (to_uint32 FlashBlockSize) address)
    by (unfold defl_begin_request; cbn zeta; rewrite Hb; reflexivity).
  rewrite Ed, H0, H4, H8, H12.
  unfold FlashImageCompressed, sendCommand, init_state, all_ok. cbn [calls sent negb app].
  unfold defl_data_phase. rewrite Hb, Nat2Z.id, stream_blocks_all_ok.
  cbn [fst snd sent app calls].
  repeat split; reflexivity.
Qed.

Lemma FlashImageCompressed_all_ok_witness :
  (Z.of_nat (length [1; 2; 3]) <= (2 ^ 32 - 1) * 1024 /\ 0 <= 65536 < 2 ^ 32) /\
  (let n := ((length [1; 2; 3] + 1023) / 1024)%nat in
   let res := FlashImageCompressed all_ok 5000 [1; 2; 3] 65536 init_state in
   let d := Data (defl_begin_request 5000 [1; 2; 3] 65536) in
   snd res = None /\
   sent (fst (fst res)) =
     defl_begin_request 5000 [1; 2; 3] 65536 :: map (block_request [1; 2; 3]) (List.seq 0 n) /\
   snd (fst res) = [Slip.Encode (Protocol.Encode defl_end_request)] /\
   Command (defl_begin_request 5000 [1; 2; 3] 65536) = CmdFlashDeflBegin /\
   uint32_le (slice d 0 4) = CalculateEraseSize (Z.of_nat 5000) /\
   uint32_le (slice d 4 8) = Z.of_nat n /\
   uint32_le (slice d 8 12) = FlashBlockSize /\
   uint32_le (slice d 12 16) = 65536 /\
   Data defl_end_request = [1; 0; 0; 0]).
Proof.
  split; [split; [simpl; lia|lia]|].
  apply (FlashImageCompressed_all_ok 5000 [1; 2; 3] 65536); [simpl; lia|lia].
Defined.

(** Failures of [FlashImageCompressed]: it fails on FLASH_DEFL_BEGIN
    exactly when that first command fails, and then sends nothing else;
    when it fails on block [s], that block was sent three times last,
    only earlier blocks were sent before it, and FLASH_DEFL_END is never
    written. *)
Theorem FlashImageCompressed_failure (outcome : nat -> bool) (dataLen : nat)
  (cd : list Z) (address : Z) :
  let begin := defl_begin_request dataLen cd address in
  let numBlocks := Z.to_nat (CalculateDeflBlocks (Z.of_nat (length cd)) FlashBlockSize) in
  let res := FlashImageCompressed outcome dataLen cd address init_state in
  (snd res = Some ErrDeflBegin <-> outcome 0%nat = false) /\
  (snd res = Some ErrDeflBegin -> sent (fst (fst res)) = [begin] /\ snd (fst res) = []) /\
  (forall s, snd res = Some (ErrDeflData s) ->
     (s < numBlocks)%nat /\ snd (fst res) = [] /\
     exists earlier, sent (fst (fst res)) = begin :: earlier ++ repeat (block_request cd s) 3 /\
       Forall (fun q => exists j, (j < s)%nat /\ q = block_request cd j) earlier).
Proof.
  cbn zeta. unfold FlashImageCompressed, sendCommand, init_state. cbn [calls sent app].
  destruct (outcome 0%nat) eqn:E0; cbn [negb].
  - unfold defl_data_phase.
    destruct (stream_blocks _ _ _ _ _) as [st2 [s|]] eqn:Es; cbn [fst snd].
    + destruct (stream_blocks_failure _ _ _ _ _ _ _ Es) as (Hs & earlier & Hsent & Hall).
      split; [split; discriminate|]. split; [discriminate|].
      intros s' H. injection H as <-. split; [lia|]. split; [reflexivity|].
      exists earlier. split; [rewrite Hsent; reflexivity|].
      eapply Forall_impl; [|exact Hall]. intros q (j & Hj & ->). exists j. split; [lia|reflexivity].
    + split; [split; discriminate|]. split; [discriminate|]. intros s H. discriminate.
  - cbn [fst snd]. split; [split; reflexivity|]. split; [intros _; split; reflexivity|].
    intros s H. discriminate.
Qed.

(** [DetectDevice] returns exactly the first device [ListDevices] finds on
    the same ports; when [ListDevices] finds none, [DetectDevice] reports
    "no serial ports" for an empty port list and otherwise "no device"
    with the error of the last port tried. *)
Theorem DetectDevice_first_of_ListDevices (E : Type)
  (tryPort : String.string -> Detect.Result + E) (ports : list String.string) :
  (forall r, DetectDevice E tryPort (inl ports) = inl r <->
     exists rest, ListDevices E tryPort (inl ports) = inl (r :: rest)) /\
  (ListDevices E tryPort (inl ports) = inl [] ->
     (ports = [] /\ DetectDevice E tryPort (inl ports) = inr ErrNoPorts) \/
     exists pre p e, ports = pre ++ [p] /\ tryPort p = inr e /\
       DetectDevice E tryPort (inl ports) = inr (ErrNoDevice (Some e))).
Proof.
  split.
  - intros r. unfold DetectDevice, ListDevices.
    destruct ports as [|p ps].
    + cbv beta iota. split; [discriminate|]. intros (rest & H). discriminate.
    + cbv beta iota.
      pose proof (detect_loop_first E tryPort (p :: ps) None) as Hf.
      remember (list_loop E tryPort (p :: ps) []) as L eqn:EL. clear EL.
      destruct (detect_loop E tryPort (p :: ps) None) as [[r'|] le]; cbn [fst] in Hf.
      * split.
        -- intros H. injection H as <-.
           destruct L as [|x xs]; cbn in Hf; [discriminate|].
           injection Hf as ->. exists xs. reflexivity.
        -- intros (rest & H). injection H as H. rewrite H in Hf. cbn in Hf.
           injection Hf as ->. reflexivity.
      * split; [discriminate|]. intros (rest & H). injection H as H.
        rewrite H in Hf. discriminate.
  - intros H. unfold ListDevices in H. injection H as Hl.
    destruct ports as [|p ps]; [left; split; reflexivity|right].
    destruct (detect_loop_last E tryPort (p :: ps) None ltac:(discriminate) Hl)
      as (pre & q & e & Hp & Hq & Hs).
    exists pre, q, e. split; [exact Hp|]. split; [exact Hq|].
    unfold DetectDevice. cbv beta iota.
    pose proof (detect_loop_first E tryPort (p :: ps) None) as Hf. rewrite Hl in Hf.
    destruct (detect_loop E tryPort (p :: ps) None) as [[r|] le]; cbn [fst snd hd_error] in Hf, Hs;
      [discriminate|]. rewrite Hs. reflexivity.
Qed.

End Extras.

(** ** Error messages *)
Module MessageProps.
Import Stdlib.Strings.String Protocol Messages.
Local Open Scope string_scope.

(** [ErrorMessage] names exactly the seven bootloader error codes 0x05 to
    0x0B, each with its own message; every other code is
    "unknown error". *)
Theorem ErrorMessage_codes :
  (forall code, ErrorMessage code = "unknown error" <-> ~ (5 <= code <= 11)%Z) /\
  (forall c1 c2, (5 <= c1 <= 11)%Z -> (5 <= c2 <= 11)%Z ->
     ErrorMessage c1 = ErrorMessage c2 -> c1 = c2).
Proof.
  split.
  - intros code. split.
    + intros H Hr.
      assert (Hc : (code = 5 \/ code = 6 \/ code = 7 \/ code = 8 \/ code = 9
                    \/ code = 10 \/ code = 11)%Z) by lia.
      destruct Hc as [-> | [-> | [-> | [-> | [-> | [-> | -> ] ] ] ] ] ]; cbv in H; congruence.
    + intros Hr. unfold ErrorMessage, ErrInvalidMessage, ErrFailedToAct, ErrInvalidCRC,
        ErrFlashWriteErr, ErrFlashReadErr, ErrFlashReadLenErr, ErrDeflateError.
      repeat match goal with
             | |- context [(code =? ?k)%Z] => destruct (Z.eqb_spec code k); [lia|]
             end.
      reflexivity.
  - intros c1 c2 H1 H2 E.
    assert (Hc1 : (c1 = 5 \/ c1 = 6 \/ c1 = 7 \/ c1 = 8 \/ c1 = 9
                   \/ c1 = 10 \/ c1 = 11)%Z) by lia.
    assert (Hc2 : (c2 = 5 \/ c2 = 6 \/ c2 = 7 \/ c2 = 8 \/ c2 = 9
                   \/ c2 = 10 \/ c2 = 11)%Z) by lia.
    destruct Hc1 as [-> | [-> | [-> | [-> | [-> | [-> | -> ] ] ] ] ] ];
      destruct Hc2 as [-> | [-> | [-> | [-> | [-> | [-> | -> ] ] ] ] ] ];
      try reflexivity; cbv in E; congruence.
Qed.

End MessageProps.
